(** * inv-checker: the resilient request layer of the CS:GO inventory checker

    A shallow embedding of [src/inv-checker.py] (classes [RateLimiter],
    [PriceCache] and [SteamMarketAPI]) together with the properties that the
    design document states about them.

    Modelling conventions
    - Python floats and ints used as times, delays and prices are exact
      rationals ([Q]); integers coming from JSON are [Z].  Rounding of
      floating-point arithmetic is not modelled.
    - The process environment is an explicit [World]: a clock (advanced by
      [time.sleep] and by network exchanges), the stream of [random.random()]
      draws, and a chronological log of the observable effects.
    - The remote service is a script: the list of the exchanges it will answer
      with, consumed one per [session.get].  When the script is used up the
      model has no answer and the call ends in [Starved]; this outcome does not
      exist in Python and only says that a longer script is needed.
    - [print] calls are diagnostics without influence on control flow and are
      left out.
    - [datetime.now()] and [datetime.fromtimestamp] are naive local times.
      [PriceCache.get_at] is the lookup in a time zone given by its UTC
      offset; [PriceCache.get], which the client calls, is the lookup in a
      zone whose offset stays the same for the whole run, where the
      difference of two local times is the difference of the clock. *)

From Stdlib Require Import ZArith QArith Qminmax Qabs Lqa Lia.
From stdpp Require Import gmap strings list.

Local Open Scope Q_scope.

(** ** Environment *)

(** A price record, the dict [{'price': ..., 'quantity': ...}]. *)
Module PriceRecord.
Record t := mk { price : Q; quantity : Z }.
End PriceRecord.

(** A cache entry, the dict [{'data': ..., 'timestamp': ...}].  A field is
    [None] when [dict.get] finds nothing for its key (entries read from the
    cache file need not have been written by [PriceCache.set]). *)
Module CacheEntry.
Record t := mk { data : option PriceRecord.t; timestamp : option Q }.
End CacheEntry.

(** What a call of [session.get] is made for. *)
Inductive request :=
| InventoryPageOf (start_assetid : option string)
| ListingOf (market_hash_name : string).

Inductive event :=
| Slept (seconds : Q)                         (* time.sleep(seconds) *)
| Requested (r : request)                     (* self.session.get(url, params) *)
| CacheFileWritten (content : gmap string CacheEntry.t). (* PriceCache.save_cache *)

Record World := mkWorld {
  clock : Q;            (* time.time() and datetime.now(), seconds since the epoch *)
  rng : nat -> Q;       (* the successive values of random.random() *)
  draws : nat;          (* how many of them have been consumed *)
  log : list event
}.

Definition set_clock (c : Q) (w : World) : World :=
  {| clock := c; rng := rng w; draws := draws w; log := log w |}.

Definition emit (e : event) (w : World) : World :=
  {| clock := clock w; rng := rng w; draws := draws w; log := log w ++ [e] |}.

(** [time.sleep(d)]: the clock moves on by [d]. *)
Definition sleep (d : Q) (w : World) : World :=
  emit (Slept d) (set_clock (clock w + d) w).

(** [random.uniform(a, b)], which CPython computes as
    [a + (b - a) * random()]. *)
Definition uniform (a b : Q) (w : World) : Q * World :=
  (a + (b - a) * rng w (draws w),
   {| clock := clock w; rng := rng w; draws := S (draws w); log := log w |}).

(** The random source stays within [0, 1]. *)
Definition fair (w : World) : Prop := forall n, 0 <= rng w n /\ rng w n <= 1.

(** ** RateLimiter *)

Module RateLimiter.

Record t := mk {
  base_delay : Q;
  max_delay : Q;
  jitter : Q;
  last_request_time : Q;
  consecutive_429 : nat
}.

(** [__init__(self, base_delay=1.0, max_delay=60.0, jitter=0.2)] *)
Definition init (base_delay max_delay jitter : Q) : t :=
  {| base_delay := base_delay; max_delay := max_delay; jitter := jitter;
     last_request_time := 0; consecutive_429 := 0 |}.

Definition default : t := init 1 60 (2 # 10).

Definition set_last_request_time (v : Q) (self : t) : t :=
  {| base_delay := base_delay self; max_delay := max_delay self;
     jitter := jitter self; last_request_time := v;
     consecutive_429 := consecutive_429 self |}.

Definition set_consecutive_429 (v : nat) (self : t) : t :=
  {| base_delay := base_delay self; max_delay := max_delay self;
     jitter := jitter self; last_request_time := last_request_time self;
     consecutive_429 := v |}.

(** The delay [wait] aims at once the jitter has been drawn. *)
Definition jittered_delay (self : t) (w : World) : Q :=
  let delay := base_delay self in
  delay + fst (uniform (- jitter self * delay) (jitter self * delay) w).

Definition wait (self : t) (w : World) : t * World :=
  let now := clock w in
  let elapsed := now - last_request_time self in
  let delay := base_delay self in
  let '(jitter_amount, w) :=
    uniform (- jitter self * delay) (jitter self * delay) w in
  let delay := delay + jitter_amount in
  let w := if Qlt_le_dec elapsed delay then sleep (delay - elapsed) w else w in
  (set_last_request_time (clock w) self, w).

(** The penalty computed by [handle_429] once the counter stands at [n]. *)
Definition penalty (self : t) (n : nat) : Q :=
  Qmin (base_delay self * inject_Z (2 ^ Z.of_nat n)) (max_delay self).

Definition handle_429 (self : t) (w : World) : t * World :=
  let self := set_consecutive_429 (S (consecutive_429 self)) self in
  let delay := penalty self (consecutive_429 self) in
  (self, sleep delay w).

Definition success (self : t) : t := set_consecutive_429 0 self.

(** The delay slept by the last of [n] calls of [handle_429] in a row, and the
    limiter after them. *)
Fixpoint handle_429_times (n : nat) (self : t) (w : World) : t * World :=
  match n with
  | O => (self, w)
  | S n => let '(self, w) := handle_429_times n self w in handle_429 self w
  end.

(** The delay the next [handle_429] is going to sleep. *)
Definition next_penalty (self : t) : Q :=
  penalty self (S (consecutive_429 self)).

End RateLimiter.

(** ** PriceCache *)

Module PriceCache.

Record t := mk {
  cache_duration : Q;                   (* timedelta, in seconds *)
  cache : gmap string CacheEntry.t
}.

(** [__init__]: [loaded] is what [_load_cache] returns, the content of the
    cache file or the empty dict. *)
Definition init (cache_duration_hours : Q) (loaded : gmap string CacheEntry.t) : t :=
  {| cache_duration := cache_duration_hours * 3600; cache := loaded |}.

(** Truth value of a timestamp in [if timestamp:]: [None] and [0.0] are
    false. *)
Definition truthy (timestamp : option Q) : bool :=
  match timestamp with
  | None => false
  | Some ts => negb (Qeq_bool ts 0)
  end.

Definition get (self : t) (item_name : string) (w : World) : option PriceRecord.t :=
  match cache self !! item_name with
  | None => None
  | Some cached_item =>
      match CacheEntry.timestamp cached_item with
      | Some ts =>
          if truthy (Some ts) then
            if Qlt_le_dec (cache_duration self) (clock w - ts) then None
            else CacheEntry.data cached_item
          else CacheEntry.data cached_item
      | None => CacheEntry.data cached_item
      end
  end.

(** The same lookup in a time zone whose UTC offset, in seconds, is
    [utc_offset t] at the time [t] of the clock: [datetime.now()] and
    [datetime.fromtimestamp(timestamp)] are naive datetimes, readings of the
    local wall clock, here in seconds as well. *)
Definition local_time (utc_offset : Q -> Q) (t : Q) : Q := t + utc_offset t.

(** [datetime] covers the years 1 to 9999; [datetime.fromtimestamp] raises for
    a timestamp whose local time is outside of them. *)
Definition representable (local : Q) : bool :=
  (if Qlt_le_dec local (-62135596800) then false else true)
  && (if Qlt_le_dec local 253402300800 then true else false).

Inductive lookup :=
| Found (r : option PriceRecord.t)   (* what [get] returns *)
| FromTimestampRaises.               (* line 87 raises *)

Definition get_at (utc_offset : Q -> Q) (self : t) (item_name : string)
    (w : World) : lookup :=
  match cache self !! item_name with
  | None => Found None
  | Some cached_item =>
      match CacheEntry.timestamp cached_item with
      | Some ts =>
          if truthy (Some ts) then
            let cached_time := local_time utc_offset ts in
            if representable cached_time then
              let now := local_time utc_offset (clock w) in
              if Qlt_le_dec (cache_duration self) (now - cached_time)
              then Found None
              else Found (CacheEntry.data cached_item)
            else FromTimestampRaises
          else Found (CacheEntry.data cached_item)
      | None => Found (CacheEntry.data cached_item)
      end
  end.

Definition set (self : t) (item_name : string) (d : PriceRecord.t) (w : World)
  : t * World :=
  let self :=
    {| cache_duration := cache_duration self;
       cache := <[item_name := {| CacheEntry.data := Some d;
                                  CacheEntry.timestamp := Some (clock w) |}]>
                  (cache self) |} in
  (self, emit (CacheFileWritten (cache self)) w).

End PriceCache.

(** ** The remote service *)

(** How one [session.get] round trip ends, as far as the client's control
    flow can tell. *)
Inductive reply (body : Type) :=
| Status429                             (* resp.status_code == 429 *)
| RaisesHTTPError (status : option Z)   (* requests.exceptions.HTTPError; the
                                           status of e.response, if any *)
| RaisesTransport                       (* any other failure of the call itself:
                                           ConnectionError, Timeout, ... *)
| RaisesJSONDecodeError                 (* an acceptable status, but resp.json()
                                           raises *)
| Json (data : body).                   (* resp.json() returns data *)

Arguments Status429 {body}.
Arguments RaisesHTTPError {body} status.
Arguments RaisesTransport {body}.
Arguments RaisesJSONDecodeError {body}.
Arguments Json {body} data.

Record exchange (body : Type) := mkExchange {
  latency : Q;             (* how long the round trip takes *)
  answer : reply body
}.

Arguments mkExchange {body} latency answer.
Arguments latency {body} e.
Arguments answer {body} e.

(** The world after [session.get] has been called for [r] and answered with
    [x]. *)
Definition perform {body} (r : request) (x : exchange body) (w : World) : World :=
  let w := emit (Requested r) w in
  set_clock (clock w + latency x) w.

Definition is_success {body} (a : reply body) : bool :=
  match a with Json _ => true | _ => false end.

(** How a call of one of the client's methods ends. *)
Inductive exn := UnboundLocalError.

Inductive outcome (A : Type) :=
| Returned (v : A)
| Raised (e : exn)
| Starved.

Arguments Returned {A} v.
Arguments Raised {A} e.
Arguments Starved {A}.

(** ** JSON payloads *)

Module Asset.
Record t := mk { classid : string; instanceid : string; assetid : string }.
End Asset.

Module Description.
Record t := mk { classid : string; instanceid : string; market_hash_name : string }.
End Description.

(** One page of the inventory endpoint, with the defaults of [data.get]
    filled in for missing keys ([[]], [[]], [0], [None]). *)
Module Page.
Record t := mk {
  assets : list Asset.t;
  descriptions : list Description.t;
  more_items : Z;
  last_assetid : option string
}.
End Page.

(** The body of an inventory response: [None] is a payload that is false in
    [if not data] (the empty object, [null]). *)
Abbreviation InventoryBody := (option Page.t).

(** What [fetch_csgo_inventory] returns. *)
Module Inventory.
Record t := mk { assets : list Asset.t; descriptions : list Description.t }.
End Inventory.

(** One value of the [listinginfo] object; a field is [None] when its key is
    missing. *)
Module ListingInfo.
Record t := mk {
  converted_price : option Z;
  converted_fee : option Z;
  quantity : option Z
}.
End ListingInfo.

(** The body of a listing response: [data.get('listinginfo', {})] in the
    order of its keys, empty when the key is missing. *)
Abbreviation ListingBody := (list (string * ListingInfo.t)).

(** ** SteamMarketAPI *)

Module SteamMarketAPI.

Record t := mk {
  steam_id : string;
  limiter : RateLimiter.t;
  cache : PriceCache.t
}.

(** [__init__(self, steam_id, cache_duration_hours=24)] *)
Definition init (steam_id : string) (cache_duration_hours : Q)
    (loaded : gmap string CacheEntry.t) : t :=
  {| steam_id := steam_id;
     limiter := RateLimiter.init 1 60 (2 # 10);
     cache := PriceCache.init cache_duration_hours loaded |}.

Definition set_limiter (l : RateLimiter.t) (self : t) : t :=
  {| steam_id := steam_id self; limiter := l; cache := cache self |}.

Definition set_cache (c : PriceCache.t) (self : t) : t :=
  {| steam_id := steam_id self; limiter := limiter self; cache := c |}.

Definition limiter_wait (self : t) (w : World) : t * World :=
  let '(l, w) := RateLimiter.wait (limiter self) w in (set_limiter l self, w).

Definition limiter_handle_429 (self : t) (w : World) : t * World :=
  let '(l, w) := RateLimiter.handle_429 (limiter self) w in (set_limiter l self, w).

Definition limiter_success (self : t) : t :=
  set_limiter (RateLimiter.success (limiter self)) self.

(** *** fetch_csgo_inventory *)

(** The local variables of [fetch_csgo_inventory].  [data] is [None] as long
    as no assignment has bound it; [start_assetid] is the entry of that name
    in [params]. *)
Module Locals.
Record t := mk {
  all_assets : list Asset.t;
  descriptions : list Description.t;
  last_assetid : option string;
  more_items : bool;
  first : bool;
  data : option InventoryBody;
  start_assetid : option string
}.
End Locals.

Definition initial_locals : Locals.t :=
  {| Locals.all_assets := []; Locals.descriptions := [];
     Locals.last_assetid := None; Locals.more_items := true;
     Locals.first := true; Locals.data := None;
     Locals.start_assetid := None |}.

Definition bind_data (d : InventoryBody) (lv : Locals.t) : Locals.t :=
  {| Locals.all_assets := Locals.all_assets lv;
     Locals.descriptions := Locals.descriptions lv;
     Locals.last_assetid := Locals.last_assetid lv;
     Locals.more_items := Locals.more_items lv;
     Locals.first := Locals.first lv;
     Locals.data := Some d;
     Locals.start_assetid := Locals.start_assetid lv |}.

(** Truth value of a cursor in [if last_assetid] and [not last_assetid]. *)
Definition cursor_given (last_assetid : option string) : bool :=
  match last_assetid with
  | None => false
  | Some s => negb (String.eqb s "")
  end.

(** [{'assets': all_assets, 'descriptions': descriptions}] *)
Definition collected (lv : Locals.t) : Inventory.t :=
  {| Inventory.assets := Locals.all_assets lv;
     Inventory.descriptions := Locals.descriptions lv |}.

(** [max_retries = 5] *)
Definition max_retries : nat := 5.

(** Lines 123-129, the head of an iteration of [while more_items]: the cursor
    goes into [params], then [self.limiter.wait()]. *)
Definition begin_page (lv : Locals.t) (self : t) (w : World)
  : Locals.t * t * World :=
  let lv :=
    if cursor_given (Locals.last_assetid lv) then
      {| Locals.all_assets := Locals.all_assets lv;
         Locals.descriptions := Locals.descriptions lv;
         Locals.last_assetid := Locals.last_assetid lv;
         Locals.more_items := Locals.more_items lv;
         Locals.first := Locals.first lv;
         Locals.data := Locals.data lv;
         Locals.start_assetid := Locals.last_assetid lv |}
    else lv in
  let '(self, w) := limiter_wait self w in
  (lv, self, w).

(** Where control goes once the retry loop of a page is left. *)
Inductive flow :=
| Leave (r : outcome Inventory.t)
| Again (lv : Locals.t).

(** Lines 156-172, the rest of an iteration of [while more_items] after the
    retry loop.  Reading [data] before any assignment has bound it raises
    [UnboundLocalError]. *)
Definition end_page (lv : Locals.t) : flow :=
  match Locals.data lv with
  | None => Leave (Raised UnboundLocalError)
  | Some None => Leave (Returned (collected lv))
  | Some (Some page) =>
      let descriptions :=
        if Locals.first lv then Page.descriptions page
        else Locals.descriptions lv in
      let all_assets := Locals.all_assets lv ++ Page.assets page in
      let more_items := (Page.more_items page =? 1)%Z in
      let last_assetid := Page.last_assetid page in
      let lv :=
        {| Locals.all_assets := all_assets;
           Locals.descriptions := descriptions;
           Locals.last_assetid := last_assetid;
           Locals.more_items := more_items;
           Locals.first := false;
           Locals.data := Locals.data lv;
           Locals.start_assetid := Locals.start_assetid lv |} in
      if negb more_items || negb (cursor_given last_assetid)
      then Leave (Returned (collected lv))
      else if more_items then Again lv
      else Leave (Returned (collected lv))
  end.

(** The exponential delay of line 152. *)
Definition transient_delay (retry_count : nat) : Z :=
  Z.min (2 ^ Z.of_nat retry_count) 60.

(** Lines 131-172 from an attempt of the retry loop onwards, with the pages
    that follow.  Every attempt consumes one exchange of the script, so the
    recursion is on the script. *)
Fixpoint retry_loop (net : list (exchange InventoryBody)) (retry_count : nat)
    (lv : Locals.t) (self : t) (w : World) {struct net}
  : outcome Inventory.t * t * World * list (exchange InventoryBody) :=
  match net with
  | [] => (Starved, self, w, [])
  | x :: net =>
      let w := perform (InventoryPageOf (Locals.start_assetid lv)) x w in
      (* the code after the retry loop, and the next iteration of the
         pagination loop *)
      let leave_retry_loop lv self w :=
        match end_page lv with
        | Leave r => (r, self, w, net)
        | Again lv =>
            let '(lv, self, w) := begin_page lv self w in
            retry_loop net 0%nat lv self w
        end in
      (* back at [while retry_count < max_retries] *)
      let loop_head retry_count lv self w :=
        if (retry_count <? max_retries)%nat
        then retry_loop net retry_count lv self w
        else leave_retry_loop lv self w in
      (* the handler of RequestException and JSONDecodeError *)
      let handler self w :=
        let retry_count := S retry_count in
        if (max_retries <=? retry_count)%nat
        then (Returned (collected lv), self, w, net)
        else
          let delay := transient_delay retry_count in
          let w := sleep (inject_Z delay) w in
          loop_head retry_count lv self w in
      match answer x with
      | Status429 =>
          let '(self, w) := limiter_handle_429 self w in
          let retry_count := S retry_count in
          loop_head retry_count lv self w
      | RaisesHTTPError _ => handler self w
      | RaisesTransport => handler self w
      | RaisesJSONDecodeError =>
          let self := limiter_success self in
          handler self w
      | Json d =>
          let self := limiter_success self in
          leave_retry_loop (bind_data d lv) self w
      end
  end.

(** The loop conditions [more_items] and [retry_count < max_retries] hold
    when the loops are entered for the first time: [more_items] is [True],
    [retry_count] is [0] and [max_retries] is [5]. *)
Definition fetch_csgo_inventory (self : t)
    (net : list (exchange InventoryBody)) (w : World)
  : outcome Inventory.t * t * World * list (exchange InventoryBody) :=
  let '(lv, self, w) := begin_page initial_locals self w in
  retry_loop net 0%nat lv self w.

(** *** get_price *)

(** [{'price': 0.0, 'quantity': 0}] *)
Definition zero_fallback : PriceRecord.t :=
  {| PriceRecord.price := 0; PriceRecord.quantity := 0 |}.

(** Lines 207-218: the record computed from a decoded response. *)
Definition parse_listing (listinginfo : ListingBody) : PriceRecord.t :=
  match listinginfo with
  | [] => zero_fallback
  | (_, info) :: _ =>
      let price_raw := ListingInfo.converted_price info in
      let fee_raw := default 0%Z (ListingInfo.converted_fee info) in
      let quantity := default 0%Z (ListingInfo.quantity info) in
      let price :=
        match price_raw with
        | Some price_raw => inject_Z (price_raw + fee_raw) / 100
        | None => 0
        end in
      {| PriceRecord.price := price; PriceRecord.quantity := quantity |}
  end.

Definition cache_set (name : string) (d : PriceRecord.t) (self : t) (w : World)
  : t * World :=
  let '(c, w) := PriceCache.set (cache self) name d w in (set_cache c self, w).

Definition is_429 (status : option Z) : bool :=
  match status with
  | Some s => (s =? 429)%Z
  | None => false
  end.

(** Lines 193-234: [for attempt in range(max_retries + 1)] over the values
    [attempts] still to come.  The function returns Python's [None] when the
    loop runs to its end. *)
Fixpoint attempt_loop (attempts : list nat) (max_retries : nat)
    (market_hash_name : string) (net : list (exchange ListingBody))
    (self : t) (w : World) {struct attempts}
  : outcome (option PriceRecord.t) * t * World * list (exchange ListingBody) :=
  match attempts with
  | [] => (Returned None, self, w, net)
  | attempt :: attempts =>
      let '(self, w) := limiter_wait self w in
      match net with
      | [] => (Starved, self, w, [])
      | x :: net =>
          let w := perform (ListingOf market_hash_name) x w in
          (* [continue] *)
          let continue self w :=
            attempt_loop attempts max_retries market_hash_name net self w in
          (* lines 233-234, reached when a handler has run to its end *)
          let after_handlers self w :=
            if (attempt =? max_retries)%nat
            then (Returned (Some zero_fallback), self, w, net)
            else continue self w in
          match answer x with
          | Status429 =>
              let '(self, w) := limiter_handle_429 self w in
              continue self w
          | RaisesHTTPError status =>
              if is_429 status && (attempt <? max_retries)%nat then
                let '(self, w) := limiter_handle_429 self w in
                continue self w
              else after_handlers self w
          | RaisesTransport => after_handlers self w
          | RaisesJSONDecodeError =>
              let self := limiter_success self in
              after_handlers self w
          | Json listinginfo =>
              let self := limiter_success self in
              let result := parse_listing listinginfo in
              let '(self, w) := cache_set market_hash_name result self w in
              (Returned (Some result), self, w, net)
          end
      end
  end.

(** [get_price(self, market_hash_name, currency=3, max_retries=5)]; the
    currency only goes into the request. *)
Definition get_price (self : t) (market_hash_name : string) (max_retries : nat)
    (net : list (exchange ListingBody)) (w : World)
  : outcome (option PriceRecord.t) * t * World * list (exchange ListingBody) :=
  match PriceCache.get (cache self) market_hash_name w with
  | Some cache_result => (Returned (Some cache_result), self, w, net)
  | None =>
      attempt_loop (seq 0 (max_retries + 1)) max_retries market_hash_name
        net self w
  end.

End SteamMarketAPI.

(** ** Scripts of the remote service

    Vocabulary for the hypotheses of the theorems below: it describes what
    the service answers, not what the client does. *)

(** An exchange that does not deliver a decoded body. *)
Definition failed {body} (x : exchange body) : Prop :=
  is_success (answer x) = false.

(** An inventory page that arrives after some failed attempts. *)
Record fetched_page := mkFetched {
  failures : list (exchange InventoryBody);
  took : Q;
  page : Page.t
}.

Definition exchanges_of (f : fetched_page) : list (exchange InventoryBody) :=
  failures f ++ [mkExchange (took f) (Json (Some (page f)))].

(** The failed attempts leave a retry for the successful one. *)
Definition within_budget (f : fetched_page) : Prop :=
  Forall failed (failures f)
  /\ (length (failures f) < SteamMarketAPI.max_retries)%nat.

(** [more_items] is set and a cursor comes with it. *)
Definition announces_more (p : Page.t) : bool :=
  (Page.more_items p =? 1)%Z
  && SteamMarketAPI.cursor_given (Page.last_assetid p).


(** The client after a failed exchange has been received, before the handler
    runs: [limiter.success()] has been called already when it is [resp.json()]
    that fails. *)
Definition after_failure {body} (x : exchange body) (self : SteamMarketAPI.t)
  : SteamMarketAPI.t :=
  match answer x with
  | RaisesJSONDecodeError => SteamMarketAPI.limiter_success self
  | _ => self
  end.

(** ** Sample values *)

Module Sample.

Definition world : World :=
  {| clock := 1700000000; rng := fun _ => 1 # 2; draws := 0; log := [] |}.

Definition api : SteamMarketAPI.t :=
  SteamMarketAPI.init "76561198000000000" 24 ∅.

Definition rate_limited {body} : exchange body := mkExchange (1 # 10) Status429.

Definition timed_out {body} : exchange body := mkExchange 10 RaisesTransport.

Definition asset1 : Asset.t := Asset.mk "310776560" "302028390" "1001".
Definition asset2 : Asset.t := Asset.mk "310776561" "188530139" "1002".

Definition description1 : Description.t :=
  Description.mk "310776560" "302028390" "AK-47 | Redline (Field-Tested)".

Definition page1 : Page.t := Page.mk [asset1] [description1] 1 (Some "1001").
Definition page2 : Page.t := Page.mk [asset2] [] 0 None.

Definition listing : ListingBody :=
  [("4413"%string, ListingInfo.mk (Some 1050%Z) (Some 50%Z) (Some 1%Z))].

Definition record : PriceRecord.t := PriceRecord.mk (125 # 10) 3.

(** The UTC offset of Europe/Berlin around the change to summer time of
    2024-03-31, 01:00 UTC. *)
Definition berlin (t : Q) : Q :=
  if Qlt_le_dec t 1711846800 then 3600 else 7200.


End Sample.

(** ** Observations on the log *)

(** The requests sent, in order. *)
Definition requests (l : list event) : list request :=
  omap (fun e => match e with Requested r => Some r | _ => None end) l.

(** The contents written to the cache file, in order. *)
Definition file_writes (l : list event) : list (gmap string CacheEntry.t) :=
  omap (fun e => match e with CacheFileWritten c => Some c | _ => None end) l.

(** The requests that a retrieval sends for pages that arrive one after the
    other, the first of them asked for with [cursor]: every attempt for a page
    carries the cursor that the page before has left. *)
Fixpoint expected_requests (cursor : option string) (pages : list fetched_page)
  : list request :=
  match pages with
  | [] => []
  | f :: pages =>
      repeat (InventoryPageOf cursor) (S (length (failures f)))
      ++ expected_requests (Page.last_assetid (page f)) pages
  end.

(** The cursor left by the last of these pages. *)
Fixpoint final_cursor (cursor : option string) (pages : list fetched_page)
  : option string :=
  match pages with
  | [] => cursor
  | f :: pages => final_cursor (Page.last_assetid (page f)) pages
  end.

(** The sum of the prices of the rows of a table. *)
Definition sum_prices (rows : list (string * Q)) : Q :=
  foldr (fun row acc => snd row + acc) 0 rows.

(** [n] calls of [RateLimiter.wait] with nothing in between. *)
Fixpoint wait_times (n : nat) (self : RateLimiter.t) (w : World)
  : RateLimiter.t * World :=
  match n with
  | O => (self, w)
  | S n => let '(self, w) := wait_times n self w in RateLimiter.wait self w
  end.

(** ** main *)

Module Main.

Definition STEAM_ID : string := "YOUR_STEAM_ID_HERE".

Definition asset_key (asset : Asset.t) : string * string :=
  (Asset.classid asset, Asset.instanceid asset).

Definition description_key (d : Description.t) : string * string :=
  (Description.classid d, Description.instanceid d).

(** Lines 250-253: the dict comprehension; a later description replaces an
    earlier one with the same key. *)
Definition desc_map (descriptions : list Description.t)
  : gmap (string * string) Description.t :=
  foldl (fun m d => <[description_key d := d]> m) ∅ descriptions.

(** Lines 256-264: the assets that have a description, with its name. *)
Definition items (assets : list Asset.t)
    (desc_map : gmap (string * string) Description.t)
  : list (string * Description.t) :=
  omap (fun asset =>
          match desc_map !! asset_key asset with
          | Some desc => Some (Description.market_hash_name desc, desc)
          | None => None
          end) assets.

(** The last of the descriptions that carry the key [k]. *)
Definition last_with_key (k : string * string)
    (descriptions : list Description.t) : option Description.t :=
  last (filter (fun d => description_key d = k) descriptions).

(** What the table shows: the rows printed and the total. *)
Record tally := mkTally { printed : list (string * Q); total : Q }.

(** Line 274: [price_info.get('price', 0.0) if price_info else 0.0]. *)
Definition price_of (price_info : option PriceRecord.t) : Q :=
  match price_info with
  | Some r => PriceRecord.price r
  | None => 0
  end.

(** Lines 272-278: the loop over the items. *)
Fixpoint price_all (items : list (string * Description.t))
    (api : SteamMarketAPI.t) (net : list (exchange ListingBody)) (w : World)
    (acc : tally) {struct items}
  : outcome tally * SteamMarketAPI.t * World * list (exchange ListingBody) :=
  match items with
  | [] => (Returned acc, api, w, net)
  | (name, _) :: items =>
      let '(out, api, w, net) := SteamMarketAPI.get_price api name 5 net w in
      match out with
      | Returned price_info =>
          let price := price_of price_info in
          if Qlt_le_dec 0 price then
            price_all items api net w
              {| printed := printed acc ++ [(name, price)];
                 total := total acc + price |}
          else price_all items api net w acc
      | Raised e => (Raised e, api, w, net)
      | Starved => (Starved, api, w, net)
      end
  end.

Inductive report :=
| NoItems                      (* "Failed to retrieve inventory items." *)
| Table (t : tally).

(** [main()]; [loaded] is the content of the cache file at startup, the two
    scripts are the answers of the inventory and of the listing endpoint. *)
Definition main (loaded : gmap string CacheEntry.t)
    (inventory_net : list (exchange InventoryBody))
    (listing_net : list (exchange ListingBody)) (w : World)
  : outcome report * SteamMarketAPI.t * World
    * list (exchange InventoryBody) * list (exchange ListingBody) :=
  let api := SteamMarketAPI.init STEAM_ID 24 loaded in
  let '(out, api, w, inventory_net) :=
    SteamMarketAPI.fetch_csgo_inventory api inventory_net w in
  match out with
  | Returned inventory =>
      match Inventory.assets inventory with
      | [] => (Returned NoItems, api, w, inventory_net, listing_net)
      | _ :: _ =>
          let desc_map := desc_map (Inventory.descriptions inventory) in
          let items := items (Inventory.assets inventory) desc_map in
          let '(out, api, w, listing_net) :=
            price_all items api listing_net w {| printed := []; total := 0 |} in
          match out with
          | Returned t =>
              (* api.cache.save_cache() *)
              let w :=
                emit (CacheFileWritten
                        (PriceCache.cache (SteamMarketAPI.cache api))) w in
              (Returned (Table t), api, w, inventory_net, listing_net)
          | Raised e => (Raised e, api, w, inventory_net, listing_net)
          | Starved => (Starved, api, w, inventory_net, listing_net)
          end
      end
  | Raised e => (Raised e, api, w, inventory_net, listing_net)
  | Starved => (Starved, api, w, inventory_net, listing_net)
  end.

End Main.

(** * Properties *)

(** ** RateLimiter *)

Module RateLimiterFacts.
Import RateLimiter.

Lemma penalty_capped self n : penalty self n <= max_delay self.
Proof. unfold penalty. apply Q.le_min_r. Qed.

Lemma pow2_step (n : nat) : inject_Z (2 ^ Z.of_nat (S n)) == 2 * inject_Z (2 ^ Z.of_nat n).
Proof.
  rewrite Nat2Z.inj_succ, Z.pow_succ_r by lia.
  rewrite inject_Z_mult. reflexivity.
Qed.

Lemma pow2_pos (n : nat) : 0 < inject_Z (2 ^ Z.of_nat n).
Proof.
  change 0 with (inject_Z 0). rewrite <- Zlt_Qlt. apply Z.pow_pos_nonneg; lia.
Qed.

Lemma penalty_step self n :
  0 <= base_delay self -> penalty self n <= penalty self (S n).
Proof.
  intros Hb. unfold penalty.
  apply Q.min_le_compat_r.
  rewrite pow2_step. pose proof (pow2_pos n) as Hp. nra.
Qed.

Lemma penalty_mono self i j :
  0 <= base_delay self -> (i <= j)%nat -> penalty self i <= penalty self j.
Proof.
  intros Hb Hij. induction Hij as [|j Hij IH].
  - apply Qle_refl.
  - eapply Qle_trans; [exact IH | by apply penalty_step].
Qed.

Lemma handle_429_times_spec n : forall self w,
  consecutive_429 (fst (handle_429_times n self w)) = (consecutive_429 self + n)%nat
  /\ base_delay (fst (handle_429_times n self w)) = base_delay self
  /\ max_delay (fst (handle_429_times n self w)) = max_delay self
  /\ log (snd (handle_429_times n self w)) =
       log w ++ map (fun k => Slept (penalty self (consecutive_429 self + k))) (seq 1 n).
Proof.
  induction n as [|n IH]; intros self w.
  - simpl. rewrite Nat.add_0_r, app_nil_r. done.
  - rewrite seq_S, map_app. cbn [handle_429_times map].
    destruct (IH self w) as (Hc & Hb & Hm & Hl).
    destruct (handle_429_times n self w) as [s1 w1]. cbn [fst snd] in *.
    unfold handle_429, sleep, emit, set_clock, penalty. cbn.
    rewrite Hc, Hl, Hb, Hm. split_and!; [lia | done | done |].
    rewrite <- app_assoc.
    replace (consecutive_429 self + S n)%nat with (S (consecutive_429 self + n)) by lia.
    reflexivity.
Qed.

(** C7.  Starting from a limiter whose counter of consecutive rejections is
    zero (a new one, or one that has just seen [success]), [n] calls of
    [handle_429] in a row sleep min(base_delay * 2^k, max_delay) at the k-th
    call, k = 1 .. n.  With a base delay that is not negative these delays
    never decrease, and none exceeds [max_delay].  [success] puts the counter
    back to zero, so that the next penalty is again the first one of the
    schedule, min(base_delay * 2, max_delay). *)
Theorem backoff_schedule (self : t) (w : World) (n : nat) :
  0 <= base_delay self ->
  consecutive_429 self = 0%nat ->
  let delay k := Qmin (base_delay self * inject_Z (2 ^ Z.of_nat k)) (max_delay self) in
  let after := handle_429_times n self w in
  log (snd after) = log w ++ map (fun k => Slept (delay k)) (seq 1 n)
  /\ (forall i j, (i <= j)%nat -> delay i <= delay j)
  /\ (forall k, delay k <= max_delay self)
  /\ consecutive_429 (success (fst after)) = 0%nat
  /\ log (snd (handle_429 (success (fst after)) (snd after))) =
       log (snd after) ++ [Slept (delay 1%nat)].
Proof.
  intros Hb H0 delay after.
  destruct (handle_429_times_spec n self w) as (Hc & Hbase & Hmax & Hlog).
  fold after in Hc, Hbase, Hmax, Hlog.
  split_and!.
  - rewrite Hlog, H0. reflexivity.
  - intros i j Hij. by apply (penalty_mono self).
  - intros k. apply (penalty_capped self).
  - reflexivity.
  - unfold handle_429, success, sleep, emit, set_clock, penalty. cbn.
    rewrite Hbase, Hmax. reflexivity.
Qed.

Lemma backoff_schedule_witness :
  log (snd (handle_429_times 3 default Sample.world)) =
  [Slept (Qmin (1 * inject_Z (2 ^ 1)) 60); Slept (Qmin (1 * inject_Z (2 ^ 2)) 60);
   Slept (Qmin (1 * inject_Z (2 ^ 3)) 60)].
Proof.
  destruct (backoff_schedule default Sample.world 3) as [H _].
  - vm_compute. discriminate.
  - reflexivity.
  - exact H.
Defined.

Lemma jittered_delay_range self w :
  fair w -> 0 <= base_delay self -> 0 <= jitter self ->
  base_delay self * (1 - jitter self) <= jittered_delay self w
  /\ jittered_delay self w <= base_delay self * (1 + jitter self).
Proof.
  intros Hf Hb Hj. unfold jittered_delay, uniform. cbn [fst].
  destruct (Hf (draws w)) as [H0 H1].
  set (u := rng w (draws w)) in *.
  assert (0 <= jitter self * base_delay self) by nra.
  split; nra.
Qed.

Lemma wait_unfold self w :
  wait self w =
  let elapsed := clock w - last_request_time self in
  let delay := jittered_delay self w in
  let w1 := snd (uniform (- jitter self * base_delay self) (jitter self * base_delay self) w) in
  let w2 := if Qlt_le_dec elapsed delay then sleep (delay - elapsed) w1 else w1 in
  (set_last_request_time (clock w2) self, w2).
Proof. reflexivity. Qed.

(** C9, as the code has it.  [wait] leaves in [last_request_time] the clock
    after the wait.  The gap to the timestamp of the call before is the larger
    of the time that had gone by when [wait] was entered and of the delay drawn
    for this call, which lies within base_delay * (1 -/+ jitter).  So the gap
    is never below base_delay * (1 - jitter); it stays below
    base_delay * (1 + jitter) when the caller comes back within that time. *)
Theorem wait_gap (self : t) (w : World) :
  fair w -> 0 <= base_delay self -> 0 <= jitter self ->
  let elapsed := clock w - last_request_time self in
  let delay := jittered_delay self w in
  let gap := last_request_time (fst (wait self w)) - last_request_time self in
  last_request_time (fst (wait self w)) = clock (snd (wait self w))
  /\ base_delay self * (1 - jitter self) <= delay
  /\ delay <= base_delay self * (1 + jitter self)
  /\ gap == Qmax elapsed delay
  /\ base_delay self * (1 - jitter self) <= gap
  /\ (elapsed <= base_delay self * (1 + jitter self) ->
      gap <= base_delay self * (1 + jitter self)).
Proof.
  intros Hf Hb Hj elapsed delay gap.
  destruct (jittered_delay_range self w Hf Hb Hj) as [Hlo Hhi].
  fold delay in Hlo, Hhi.
  assert (Hgap : gap == Qmax elapsed delay).
  { unfold gap. rewrite wait_unfold. cbn zeta. fold elapsed delay.
    destruct (Qlt_le_dec elapsed delay) as [Hlt | Hge]; cbn.
    - rewrite Q.max_r by lra. fold elapsed. unfold elapsed. lra.
    - rewrite Q.max_l by lra. reflexivity. }
  split_and!; [reflexivity | exact Hlo | exact Hhi | exact Hgap | |].
  - rewrite Hgap. eapply Qle_trans; [exact Hlo | apply Q.le_max_r].
  - intros He. rewrite Hgap. apply Q.max_lub; assumption.
Qed.
Lemma wait_gap_witness :
  let first := wait default Sample.world in
  (* the request after the first call takes 0.3 s, then the second call *)
  let w := perform (ListingOf "AK-47 | Redline")
             (mkExchange (3 # 10) (Status429 (body := ListingBody))) (snd first) in
  let second := wait (fst first) w in
  let gap := last_request_time (fst second) - last_request_time (fst first) in
  gap == 1 /\ 1 * (1 - (2 # 10)) <= gap /\ gap <= 1 * (1 + (2 # 10)).
Proof.
  intros first w second gap.
  assert (Hf : fair w) by (intros n; split; vm_compute; discriminate).
  assert (Hb : 0 <= base_delay (fst first)) by (vm_compute; discriminate).
  assert (Hj : 0 <= jitter (fst first)) by (vm_compute; discriminate).
  destruct (wait_gap (fst first) w Hf Hb Hj) as (_ & _ & _ & _ & Hlo & Hhi).
  split_and!; [reflexivity | exact Hlo | apply Hhi; vm_compute; discriminate].
Defined.

(** C9 as stated fails: a penalty of two seconds between two calls of [wait]
    puts their timestamps two seconds apart, more than
    base_delay * (1 + jitter) = 1.2. *)
Lemma wait_gap_exceeds_upper_bound :
  let w0 := Sample.world in
  let '(s1, w1) := wait default w0 in
  let '(s2, w2) := handle_429 s1 w1 in
  let '(s3, w3) := wait s2 w2 in
  fair w0
  /\ last_request_time s3 - last_request_time s1 == 2
  /\ ~ last_request_time s3 - last_request_time s1
       <= base_delay default * (1 + jitter default).
Proof.
  cbn. split_and!.
  - intros n; cbn; lra.
  - reflexivity.
  - intros H. vm_compute in H. apply H. reflexivity.
Qed.
End RateLimiterFacts.


(** ** PriceCache *)

Module PriceCacheFacts.
Import PriceCache.

Lemma truthy_true ts : ~ ts == 0 -> truthy (Some ts) = true.
Proof.
  intros H. unfold truthy. destruct (Qeq_bool ts 0) eqn:E; [|done].
  apply Qeq_bool_iff in E. contradiction.
Qed.

(** In a zone whose offset does not change, the lookup is [get]. *)
Lemma get_at_fixed_zone (offset : Q) (c : t) (k : string) (w : World) :
  (forall e ts, cache c !! k = Some e -> CacheEntry.timestamp e = Some ts ->
                representable (local_time (fun _ => offset) ts) = true) ->
  get_at (fun _ => offset) c k w = Found (get c k w).
Proof.
  intros Hr. unfold get_at, get.
  destruct (cache c !! k) as [e|] eqn:He; [|reflexivity].
  destruct (CacheEntry.timestamp e) as [ts|] eqn:Ht; [|reflexivity].
  destruct (truthy (Some ts)); [|reflexivity].
  rewrite (Hr e ts eq_refl Ht). unfold local_time.
  destruct (Qlt_le_dec _ (clock w + offset - (ts + offset))) as [H1|H1],
           (Qlt_le_dec _ (clock w - ts)) as [H2|H2];
    try reflexivity; exfalso; lra.
Qed.

(** An entry with a timestamp that is not zero lives for [cache_duration] on
    the local wall clock. *)
Lemma get_at_stamped utc_offset (c : t) (k : string) (v : PriceRecord.t)
    (ts : Q) (w : World) :
  cache c !! k = Some (CacheEntry.mk (Some v) (Some ts)) ->
  ~ ts == 0 ->
  representable (local_time utc_offset ts) = true ->
  (local_time utc_offset (clock w) - local_time utc_offset ts
     <= cache_duration c ->
   get_at utc_offset c k w = Found (Some v))
  /\ (cache_duration c
        < local_time utc_offset (clock w) - local_time utc_offset ts ->
      get_at utc_offset c k w = Found None).
Proof.
  intros He Hne Hr. unfold get_at. rewrite He.
  cbn [CacheEntry.timestamp CacheEntry.data].
  rewrite (truthy_true _ Hne), Hr.
  split; intros H; destruct (Qlt_le_dec _ _) as [H1|H1];
    try reflexivity; exfalso; lra.
Qed.

(** C4 does not hold across a change of the UTC offset.  [get] takes the age
    of an entry as the difference of two naive local datetimes (lines 87-88).
    In Europe/Berlin an entry written on 2024-03-30 at 12:00 UTC, with a time
    to live of 24 hours, is reported absent 23.5 hours later, after the change
    to summer time; in a zone that keeps its offset it is still returned. *)
Theorem ttl_shifts_with_utc_offset :
  let c := init 24 ∅ in
  let written := set_clock 1711800000 Sample.world in
  let read := set_clock (1711800000 + 84600) Sample.world in
  let c' := fst (set c "AK-47 | Redline" Sample.record written) in
  clock read - clock written <= cache_duration c
  /\ get_at Sample.berlin c' "AK-47 | Redline" read = Found None
  /\ get_at (fun _ => 3600) c' "AK-47 | Redline" read = Found (Some Sample.record).
Proof.
  split_and!.
  - vm_compute. discriminate.
  - reflexivity.
  - reflexivity.
Qed.
End PriceCacheFacts.

(** ** fetch_csgo_inventory *)

Module InventoryFacts.
Import SteamMarketAPI.

(** One attempt answered with status 429. *)
Lemma retry_loop_429 x net rc lv self w :
  answer x = Status429 ->
  retry_loop (x :: net) rc lv self w =
  let w := perform (InventoryPageOf (Locals.start_assetid lv)) x w in
  let '(self, w) := limiter_handle_429 self w in
  if (S rc <? max_retries)%nat then retry_loop net (S rc) lv self w
  else match end_page lv with
       | Leave r => (r, self, w, net)
       | Again lv => let '(lv, self, w) := begin_page lv self w in
                     retry_loop net 0%nat lv self w
       end.
Proof. intros E. cbn [retry_loop]. rewrite E. reflexivity. Qed.

Lemma retry_loop_transient x net rc lv self w :
  failed x -> answer x <> Status429 ->
  retry_loop (x :: net) rc lv self w =
  let w := perform (InventoryPageOf (Locals.start_assetid lv)) x w in
  let self := after_failure x self in
  if (max_retries <=? S rc)%nat then (Returned (collected lv), self, w, net)
  else retry_loop net (S rc) lv self
         (sleep (inject_Z (Z.min (2 ^ Z.of_nat (S rc)) 60)) w).
Proof.
  intros F N. cbn [retry_loop]. unfold after_failure, failed in *.
  destruct (answer x); try done; cbn zeta;
    destruct (max_retries <=? S rc)%nat eqn:E; try reflexivity;
    apply Nat.leb_gt in E; apply Nat.ltb_lt in E; rewrite E; reflexivity.
Qed.

Lemma retry_loop_json x d net rc lv self w :
  answer x = Json d ->
  retry_loop (x :: net) rc lv self w =
  let w := perform (InventoryPageOf (Locals.start_assetid lv)) x w in
  let self := limiter_success self in
  match end_page (bind_data d lv) with
  | Leave r => (r, self, w, net)
  | Again lv => let '(lv, self, w) := begin_page lv self w in
                retry_loop net 0%nat lv self w
  end.
Proof. intros E. cbn [retry_loop]. rewrite E. reflexivity. Qed.

(** Failed attempts, whatever their kind, use up one retry each. *)
Lemma retry_loop_failures fails : forall net rc lv self w,
  Forall failed fails ->
  (rc + length fails < max_retries)%nat ->
  exists self' w',
    retry_loop (fails ++ net) rc lv self w =
    retry_loop net (rc + length fails) lv self' w'.
Proof.
  induction fails as [|x fails IH]; intros net rc lv self w HF Hlen.
  - exists self, w. cbn. by rewrite Nat.add_0_r.
  - inversion HF as [|? ? Hx HF']; subst. cbn [length] in Hlen.
    assert (answer x = Status429 \/ answer x <> Status429) as [E|N]
      by (destruct (answer x); auto; right; discriminate).
    + cbn [app]. rewrite (retry_loop_429 _ _ _ _ _ _ E). cbn zeta.
      destruct (limiter_handle_429 self _) as [s1 w1].
      assert (H : (S rc <? max_retries)%nat = true) by (apply Nat.ltb_lt; lia).
      rewrite H.
      destruct (IH net (S rc) lv s1 w1 HF') as (s2 & w2 & E2); [lia|].
      exists s2, w2. rewrite E2. f_equal. cbn [length]. lia.
    + cbn [app]. rewrite (retry_loop_transient _ _ _ _ _ _ Hx N). cbn zeta.
      assert (H : (max_retries <=? S rc)%nat = false) by (apply Nat.leb_gt; lia).
      rewrite H.
      edestruct (IH net (S rc) lv) as (s2 & w2 & E2); [exact HF' | lia |].
      exists s2, w2. rewrite E2. f_equal. cbn [length]. lia.
Qed.

Lemma end_page_again lv p :
  Locals.data lv = Some (Some p) ->
  announces_more p = true ->
  end_page lv =
  Again {| Locals.all_assets := Locals.all_assets lv ++ Page.assets p;
           Locals.descriptions :=
             if Locals.first lv then Page.descriptions p else Locals.descriptions lv;
           Locals.last_assetid := Page.last_assetid p;
           Locals.more_items := true;
           Locals.first := false;
           Locals.data := Some (Some p);
           Locals.start_assetid := Locals.start_assetid lv |}.
Proof.
  unfold announces_more, end_page. intros Hd [Hm Hc]%andb_prop.
  rewrite Hd, Hm, Hc. reflexivity.
Qed.

Lemma end_page_more lv p :
  announces_more p = true ->
  end_page (bind_data (Some p) lv) =
  Again {| Locals.all_assets := Locals.all_assets lv ++ Page.assets p;
           Locals.descriptions :=
             if Locals.first lv then Page.descriptions p else Locals.descriptions lv;
           Locals.last_assetid := Page.last_assetid p;
           Locals.more_items := true;
           Locals.first := false;
           Locals.data := Some (Some p);
           Locals.start_assetid := Locals.start_assetid lv |}.
Proof. intros H. by rewrite (end_page_again _ p). Qed.

Lemma end_page_last lv p :
  announces_more p = false ->
  end_page (bind_data (Some p) lv) =
  Leave (Returned
    {| Inventory.assets := Locals.all_assets lv ++ Page.assets p;
       Inventory.descriptions :=
         if Locals.first lv then Page.descriptions p else Locals.descriptions lv |}).
Proof.
  unfold announces_more, end_page. intros H. cbn.
  destruct (Page.more_items p =? 1)%Z, (cursor_given (Page.last_assetid p));
    try discriminate; reflexivity.
Qed.

Lemma begin_page_locals lv self w :
  let lv' := fst (fst (begin_page lv self w)) in
  Locals.all_assets lv' = Locals.all_assets lv
  /\ Locals.descriptions lv' = Locals.descriptions lv
  /\ Locals.first lv' = Locals.first lv
  /\ Locals.data lv' = Locals.data lv.
Proof.
  unfold begin_page. destruct (limiter_wait self w) as [s1 w1].
  destruct (cursor_given (Locals.last_assetid lv)); cbn; done.
Qed.

Lemma fetch_one f net lv self w :
  within_budget f ->
  exists self' w',
    retry_loop (exchanges_of f ++ net) 0 lv self w =
    match end_page (bind_data (Some (page f)) lv) with
    | Leave r => (r, self', w', net)
    | Again lv => let '(lv, self, w) := begin_page lv self' w' in
                  retry_loop net 0%nat lv self w
    end.
Proof.
  intros [HF Hlen]. unfold exchanges_of. rewrite <- app_assoc.
  destruct (retry_loop_failures (failures f)
              ([mkExchange (took f) (Json (Some (page f)))] ++ net)
              0 lv self w HF) as (s1 & w1 & E); [lia|].
  rewrite E. cbn [app].
  rewrite (retry_loop_json _ (Some (page f))) by reflexivity. cbn zeta.
  eauto.
Qed.

Lemma pages_loop last rest before : forall lv self w,
  Forall within_budget (before ++ [last]) ->
  Forall (fun f => announces_more (page f) = true) before ->
  announces_more (page last) = false ->
  exists self' w',
    retry_loop (flat_map exchanges_of (before ++ [last]) ++ rest) 0 lv self w =
    (Returned
       {| Inventory.assets :=
            Locals.all_assets lv ++ concat (map Page.assets (map page (before ++ [last])));
          Inventory.descriptions :=
            if Locals.first lv
            then from_option Page.descriptions [] (head (map page (before ++ [last])))
            else Locals.descriptions lv |},
     self', w', rest).
Proof.
  induction before as [|f before IH]; intros lv self w HB HM HL.
  - cbn [app flat_map]. rewrite app_nil_r.
    apply Forall_cons in HB as [HB _].
    destruct (fetch_one last rest lv self w HB) as (s1 & w1 & E).
    rewrite E, (end_page_last _ _ HL). exists s1, w1. cbn. by rewrite app_nil_r.
  - cbn [app flat_map]. rewrite <- app_assoc.
    apply Forall_cons in HB as [HBf HB]. apply Forall_cons in HM as [HMf HM].
    destruct (fetch_one f (flat_map exchanges_of (before ++ [last]) ++ rest)
                lv self w HBf) as (s1 & w1 & E).
    rewrite E, (end_page_more _ _ HMf).
    match goal with |- context [begin_page ?l s1 w1] =>
      pose proof (begin_page_locals l s1 w1) as (Ha & Hd & Hf & _);
      destruct (begin_page l s1 w1) as [[lv2 s2] w2] end.
    cbn [fst Locals.all_assets Locals.descriptions Locals.first] in Ha, Hd, Hf.
    destruct (IH lv2 s2 w2 HB HM HL) as (s3 & w3 & E3).
    exists s3, w3. rewrite E3, Ha, Hd, Hf. cbn. by rewrite app_assoc.
Qed.

(** C5.  When every page arrives within the retries of its request, all
    pages but the last announce more items with a cursor and the last one does
    not, [fetch_csgo_inventory] returns the assets of all pages in the order
    of arrival, with the descriptions of the first page, and asks for nothing
    after the last page: the rest of the script is left as it is.  After a
    page the loop goes on exactly when [more_items] is 1 and the cursor is
    given. *)
Theorem pagination (self : t) (w : World)
    (before : list fetched_page) (last : fetched_page)
    (rest : list (exchange InventoryBody)) :
  Forall within_budget (before ++ [last]) ->
  Forall (fun f => announces_more (page f) = true) before ->
  announces_more (page last) = false ->
  let pages := map page (before ++ [last]) in
  (exists self' w',
     fetch_csgo_inventory self (flat_map exchanges_of (before ++ [last]) ++ rest) w =
     (Returned {| Inventory.assets := concat (map Page.assets pages);
                  Inventory.descriptions :=
                    from_option Page.descriptions [] (head pages) |},
      self', w', rest))
  /\ (forall lv p,
        (exists lv', end_page (bind_data (Some p) lv) = Again lv') <->
        ((Page.more_items p =? 1)%Z = true /\
         cursor_given (Page.last_assetid p) = true)).
Proof.
  intros HB HM HL pages. split.
  - unfold fetch_csgo_inventory.
    pose proof (begin_page_locals initial_locals self w) as (Ha & Hd & Hf & _).
    destruct (begin_page initial_locals self w) as [[lv1 s1] w1].
    cbn [fst] in Ha, Hd, Hf.
    destruct (pages_loop last rest before lv1 s1 w1 HB HM HL) as (s2 & w2 & E).
    exists s2, w2. rewrite E, Ha, Hf. reflexivity.
  - intros lv p. rewrite <- andb_true_iff. fold (announces_more p).
    destruct (announces_more p) eqn:E.
    + rewrite (end_page_more _ _ E). split; eauto.
    + rewrite (end_page_last _ _ E). split; [intros [? ?]|]; discriminate.
Qed.

(** Four failed attempts followed by a 429: the retry loop is left without
    [data] having been assigned by this page. *)
Lemma retry_loop_exhausted_by_429 fails x net lv self w :
  Forall failed fails -> length fails = 4%nat -> answer x = Status429 ->
  exists self' w',
    retry_loop (fails ++ x :: net) 0 lv self w =
    match end_page lv with
    | Leave r => (r, self', w', net)
    | Again lv => let '(lv, self, w) := begin_page lv self' w' in
                  retry_loop net 0%nat lv self w
    end.
Proof.
  intros HF Hlen Hx.
  destruct (retry_loop_failures fails (x :: net) 0 lv self w HF)
    as (s1 & w1 & E); [rewrite Hlen; unfold max_retries; lia|].
  rewrite E, Hlen, (retry_loop_429 _ _ _ _ _ _ Hx). cbn zeta.
  destruct (limiter_handle_429 s1 _) as [s2 w2]. cbn. eauto.
Qed.

(** C3 does not hold when the last retry of a page is used up by a 429.  The
    retry loop is then left without a [return] and line 156 reads [data]:
    on the first page the name is unbound and [UnboundLocalError] is raised;
    on a later page it still holds the page before, whose assets are added a
    second time while the pagination goes on. *)
Theorem exhausted_by_rate_limit (self : t) (w : World)
    (fails : list (exchange InventoryBody)) (x : exchange InventoryBody)
    (rest : list (exchange InventoryBody)) :
  Forall failed fails -> length fails = 4%nat -> answer x = Status429 ->
  (exists self' w',
     fetch_csgo_inventory self (fails ++ x :: rest) w =
     (Raised UnboundLocalError, self', w', rest))
  /\ (forall p last : fetched_page,
        within_budget p -> announces_more (page p) = true ->
        within_budget last -> announces_more (page last) = false ->
        exists self' w',
          fetch_csgo_inventory self
            (exchanges_of p ++ fails ++ x :: exchanges_of last ++ rest) w =
          (Returned
             {| Inventory.assets :=
                  Page.assets (page p) ++ Page.assets (page p)
                  ++ Page.assets (page last);
                Inventory.descriptions := Page.descriptions (page p) |},
           self', w', rest)).
Proof.
  intros HF Hlen Hx. split.
  - unfold fetch_csgo_inventory.
    pose proof (begin_page_locals initial_locals self w) as (_ & _ & _ & Hd).
    destruct (begin_page initial_locals self w) as [[lv1 s1] w1]. cbn [fst] in Hd.
    destruct (retry_loop_exhausted_by_429 fails x rest lv1 s1 w1 HF Hlen Hx)
      as (s2 & w2 & E).
    rewrite E. unfold end_page. rewrite Hd. cbn. eauto.
  - intros p last Hp Hmore Hl Hlast. unfold fetch_csgo_inventory.
    pose proof (begin_page_locals initial_locals self w) as (Ha & Hds & Hf & _).
    destruct (begin_page initial_locals self w) as [[lv1 s1] w1].
    cbn [fst] in Ha, Hds, Hf.
    (* the first page arrives *)
    destruct (fetch_one p (fails ++ x :: exchanges_of last ++ rest) lv1 s1 w1 Hp)
      as (s2 & w2 & E2).
    rewrite E2, (end_page_more _ _ Hmore).
    match goal with |- context [begin_page ?l s2 w2] =>
      pose proof (begin_page_locals l s2 w2) as (Ha3 & Hds3 & Hf3 & Hd3);
      destruct (begin_page l s2 w2) as [[lv3 s3] w3] end.
    cbn [fst Locals.all_assets Locals.descriptions Locals.first Locals.data]
      in Ha3, Hds3, Hf3, Hd3.
    (* the second page uses up its attempts, the last one on a 429 *)
    destruct (retry_loop_exhausted_by_429 fails x (exchanges_of last ++ rest)
                lv3 s3 w3 HF Hlen Hx) as (s4 & w4 & E4).
    rewrite E4, (end_page_again lv3 (page p) Hd3 Hmore).
    match goal with |- context [begin_page ?l s4 w4] =>
      pose proof (begin_page_locals l s4 w4) as (Ha5 & Hds5 & Hf5 & _);
      destruct (begin_page l s4 w4) as [[lv5 s5] w5] end.
    cbn [fst Locals.all_assets Locals.descriptions Locals.first] in Ha5, Hds5, Hf5.
    (* and the page fetched before is taken a second time *)
    destruct (pages_loop last rest [] lv5 s5 w5) as (s6 & w6 & E6);
      [by apply Forall_singleton | constructor | exact Hlast |].
    cbn [app flat_map] in E6. rewrite app_nil_r in E6.
    exists s6, w6. rewrite E6, Hf5, Hds5, Ha5, Hf3, Hds3, Ha3, Hf, Ha.
    cbn. by rewrite app_nil_r, <- app_assoc.
Qed.

(** C2, as the code has it.  In the retry loop of a page a failed attempt
    that leaves a retry takes one of the five and the request is sent again,
    a 429 and a transient failure alike: the 429 sleeps the penalty of the
    limiter, the transient failure sleeps min(2^retry_count, 60) seconds,
    [retry_count] counting the retries taken so far with this one.  The
    transient failure that takes the last retry returns what has been
    collected without sleeping. *)
Theorem retry_slot_accounting (x : exchange InventoryBody)
    (net : list (exchange InventoryBody)) (rc : nat) (lv : Locals.t)
    (self : t) (w : World) :
  failed x -> (rc < max_retries)%nat ->
  let request := Requested (InventoryPageOf (Locals.start_assetid lv)) in
  ((S rc < max_retries)%nat ->
   exists self' w',
     retry_loop (x :: net) rc lv self w = retry_loop net (S rc) lv self' w'
     /\ log w' =
        log w ++
        [request;
         Slept match answer x with
               | Status429 => RateLimiter.next_penalty (limiter self)
               | _ => inject_Z (Z.min (2 ^ Z.of_nat (S rc)) 60)
               end]
     /\ (answer x = Status429 ->
         RateLimiter.consecutive_429 (limiter self') =
         S (RateLimiter.consecutive_429 (limiter self))))
  /\ (S rc = max_retries -> answer x <> Status429 ->
      exists self' w',
        retry_loop (x :: net) rc lv self w =
        (Returned (collected lv), self', w', net)
        /\ log w' = log w ++ [request]).
Proof.
  intros F Hrc request. split.
  - intros Hlt.
    assert (H1 : (S rc <? max_retries)%nat = true) by (by apply Nat.ltb_lt).
    assert (H2 : (max_retries <=? S rc)%nat = false) by (apply Nat.leb_gt; lia).
    unfold failed in F. cbn [retry_loop].
    destruct (answer x); try discriminate; cbn zeta; rewrite ?H1, ?H2, ?H1;
      eexists _, _; (split; [reflexivity|]); split; try discriminate;
      cbn; rewrite <- ?app_assoc; reflexivity.
  - intros Heq Hne.
    assert (H2 : (max_retries <=? S rc)%nat = true) by (apply Nat.leb_le; lia).
    unfold failed in F. cbn [retry_loop].
    destruct (answer x); try discriminate; try contradiction; cbn zeta;
      rewrite ?H2; eexists _, _; (split; reflexivity).
Qed.

Lemma retry_slot_accounting_witness :
  exists self' w',
    retry_loop [Sample.rate_limited; Sample.timed_out] 0 initial_locals
      Sample.api Sample.world =
    retry_loop [Sample.timed_out] 1 initial_locals self' w'
    /\ log w' = [Requested (InventoryPageOf None); Slept 2].
Proof.
  assert (F : failed (Sample.rate_limited (body := InventoryBody))) by reflexivity.
  assert (B : (0 < max_retries)%nat) by (unfold max_retries; lia).
  assert (L : (1 < max_retries)%nat) by (unfold max_retries; lia).
  destruct (proj1 (retry_slot_accounting Sample.rate_limited [Sample.timed_out]
                     0 initial_locals Sample.api Sample.world F B) L)
    as (s & w & E & Hlog & _).
  exists s, w. split; [exact E | exact Hlog].
Defined.

(** C2 as stated fails: after four 429s a single transport failure ends the
    retrieval without a sleep of its own, and the page the service would have
    delivered next is never asked for.  Had the 429s left the retries alone,
    the failure would have been the first of five. *)
Lemma rate_limit_takes_retry_slots :
  let ready := mkExchange (1 # 10) (Json (Some Sample.page2)) in
  let r := fetch_csgo_inventory Sample.api
             [Sample.rate_limited; Sample.rate_limited; Sample.rate_limited;
              Sample.rate_limited; Sample.timed_out; ready] Sample.world in
  fst (fst (fst r)) = Returned (Inventory.mk [] [])
  /\ snd r = [ready]
  /\ log (snd (fst r)) =
     [Requested (InventoryPageOf None); Slept 2;
      Requested (InventoryPageOf None); Slept 4;
      Requested (InventoryPageOf None); Slept 8;
      Requested (InventoryPageOf None); Slept 16;
      Requested (InventoryPageOf None)].
Proof. split_and!; reflexivity. Qed.

Lemma pagination_witness :
  exists self' w',
    fetch_csgo_inventory Sample.api
      [Sample.rate_limited; mkExchange 1 (Json (Some Sample.page1));
       Sample.timed_out; mkExchange 1 (Json (Some Sample.page2));
       Sample.rate_limited] Sample.world =
    (Returned (Inventory.mk [Sample.asset1; Sample.asset2] [Sample.description1]),
     self', w', [Sample.rate_limited]).
Proof.
  assert (HB : Forall within_budget
                 ([mkFetched [Sample.rate_limited] 1 Sample.page1]
                  ++ [mkFetched [Sample.timed_out] 1 Sample.page2])).
  { repeat constructor; unfold max_retries; cbn; lia. }
  assert (HM : Forall (fun f => announces_more (page f) = true)
                 [mkFetched [Sample.rate_limited] 1 Sample.page1]).
  { repeat constructor. }
  destruct (proj1 (pagination Sample.api Sample.world
                     [mkFetched [Sample.rate_limited] 1 Sample.page1]
                     (mkFetched [Sample.timed_out] 1 Sample.page2)
                     [Sample.rate_limited] HB HM eq_refl))
    as (s & w & E).
  exists s, w. exact E.
Defined.

Lemma exhausted_by_rate_limit_witness :
  exists self' w',
    fetch_csgo_inventory Sample.api
      ([Sample.rate_limited; Sample.timed_out; Sample.rate_limited;
        Sample.rate_limited] ++ Sample.rate_limited :: []) Sample.world =
    (Raised UnboundLocalError, self', w', []).
Proof.
  assert (HF : Forall failed
                 [Sample.rate_limited (body := InventoryBody); Sample.timed_out;
                  Sample.rate_limited; Sample.rate_limited]).
  { repeat constructor. }
  exact (proj1 (exhausted_by_rate_limit Sample.api Sample.world _
                  Sample.rate_limited [] HF eq_refl eq_refl)).
Defined.
End InventoryFacts.

(** ** get_price *)

Module PriceFacts.
Import SteamMarketAPI.

Lemma limiter_wait_cache self w : cache (fst (limiter_wait self w)) = cache self.
Proof. unfold limiter_wait. by destruct (RateLimiter.wait (limiter self) w). Qed.

Lemma limiter_handle_429_cache self w :
  cache (fst (limiter_handle_429 self w)) = cache self.
Proof. unfold limiter_handle_429. by destruct (RateLimiter.handle_429 (limiter self) w). Qed.

(** A failed attempt that is not the last one leads to the next attempt and
    leaves the cache alone. *)
Lemma attempt_failed attempt attempts max_retries name x net self w :
  failed x -> (attempt < max_retries)%nat ->
  exists self' w',
    attempt_loop (attempt :: attempts) max_retries name (x :: net) self w =
    attempt_loop attempts max_retries name net self' w'
    /\ cache self' = cache self.
Proof.
  intros F Hlt. cbn [attempt_loop].
  pose proof (limiter_wait_cache self w) as Hc.
  destruct (limiter_wait self w) as [s1 w1]. cbn [fst] in Hc.
  assert (Hne : (attempt =? max_retries)%nat = false) by (apply Nat.eqb_neq; lia).
  assert (Hlt' : (attempt <? max_retries)%nat = true) by (apply Nat.ltb_lt; lia).
  unfold failed in F. destruct (answer x) as [|status| | |]; try discriminate; cbn zeta.
  - match goal with |- context [limiter_handle_429 s1 ?w] =>
      pose proof (limiter_handle_429_cache s1 w) as Hh;
      destruct (limiter_handle_429 s1 w) as [s2 w2] end.
    cbn [fst] in Hh. exists s2, w2. split; [reflexivity | congruence].
  - rewrite Hlt', Hne, andb_true_r. destruct (is_429 status).
    + match goal with |- context [limiter_handle_429 s1 ?w] =>
        pose proof (limiter_handle_429_cache s1 w) as Hh;
        destruct (limiter_handle_429 s1 w) as [s2 w2] end.
      cbn [fst] in Hh. exists s2, w2. split; [reflexivity | congruence].
    + eexists _, _. split; [reflexivity | exact Hc].
  - rewrite Hne. eexists _, _. split; [reflexivity | exact Hc].
  - rewrite Hne. eexists _, _. split; [reflexivity | exact Hc].
Qed.

Lemma attempts_failed max_retries name fails : forall a n net self w,
  Forall failed fails ->
  (a + length fails <= max_retries)%nat ->
  exists self' w',
    attempt_loop (seq a (length fails + n)) max_retries name (fails ++ net) self w =
    attempt_loop (seq (a + length fails) n) max_retries name net self' w'
    /\ cache self' = cache self.
Proof.
  induction fails as [|x fails IH]; intros a n net self w HF Hlen.
  - exists self, w. cbn. by rewrite Nat.add_0_r.
  - apply Forall_cons in HF as [Hx HF]. cbn [length] in *. cbn [app Nat.add seq].
    destruct (attempt_failed a (seq (S a) (length fails + n)) max_retries name x
                (fails ++ net) self w Hx) as (s1 & w1 & E1 & C1); [lia|].
    destruct (IH (S a) n net s1 w1 HF) as (s2 & w2 & E2 & C2); [lia|].
    exists s2, w2. rewrite E1, E2. split; [f_equal; f_equal; lia | congruence].
Qed.

(** C8.  When a lookup that misses the cache gets a decoded response, at the
    first attempt or after failed ones, the record computed from it is
    returned and stored in the cache under the name of the item.  Its price is
    (converted_price + converted_fee) / 100, which is 11 for 1050 and 50; an
    empty [listinginfo] gives the record with price 0.0 and quantity 0. *)
Theorem price_from_listing (self : t) (name : string) (max_retries : nat)
    (fails : list (exchange ListingBody)) (took : Q) (listinginfo : ListingBody)
    (rest : list (exchange ListingBody)) (w : World) :
  PriceCache.get (cache self) name w = None ->
  Forall failed fails ->
  (length fails <= max_retries)%nat ->
  let result := parse_listing listinginfo in
  (exists self' w' t,
     get_price self name max_retries
       (fails ++ mkExchange took (Json listinginfo) :: rest) w =
     (Returned (Some result), self', w', rest)
     /\ PriceCache.cache (cache self') =
          <[name := CacheEntry.mk (Some result) (Some t)]>
            (PriceCache.cache (cache self)))
  /\ (forall id p f q more,
        listinginfo = (id, ListingInfo.mk (Some p) (Some f) q) :: more ->
        PriceRecord.price result == inject_Z (p + f) / 100)
  /\ (listinginfo = [] -> result = PriceRecord.mk 0 0)
  /\ (forall id q more,
        PriceRecord.price
          (parse_listing ((id, ListingInfo.mk (Some 1050%Z) (Some 50%Z) q) :: more))
        == 11).
Proof.
  intros Hmiss HF Hlen result. split_and!.
  - unfold get_price. rewrite Hmiss.
    replace (max_retries + 1)%nat
      with (length fails + S (max_retries - length fails))%nat by lia.
    destruct (attempts_failed max_retries name fails 0 (S (max_retries - length fails))
                (mkExchange took (Json listinginfo) :: rest) self w HF)
      as (s1 & w1 & E & C); [lia|].
    rewrite E. cbn [seq attempt_loop answer].
    pose proof (limiter_wait_cache s1 w1) as Hc.
    destruct (limiter_wait s1 w1) as [s2 w2]. cbn [fst] in Hc. cbn zeta.
    unfold cache_set, PriceCache.set. cbn.
    eexists _, _, _. split; [reflexivity|]. cbn. by rewrite Hc, C.
  - intros id p f q more ->. reflexivity.
  - intros ->. reflexivity.
  - intros id q more. reflexivity.
Qed.

Lemma price_from_listing_witness :
  exists self' w' t,
    get_price Sample.api "AK-47 | Redline (Field-Tested)" 5
      ([Sample.rate_limited; Sample.rate_limited]
       ++ mkExchange 1 (Json Sample.listing) :: []) Sample.world =
    (Returned (Some (parse_listing Sample.listing)), self', w', [])
    /\ PriceCache.cache (cache self') =
         <[("AK-47 | Redline (Field-Tested)")%string :=
             CacheEntry.mk (Some (parse_listing Sample.listing)) (Some t)]>
           (PriceCache.cache (cache Sample.api)).
Proof.
  assert (HF : Forall failed
                 [Sample.rate_limited (body := ListingBody); Sample.rate_limited]).
  { repeat constructor. }
  assert (Hlen : (length [Sample.rate_limited (body := ListingBody);
                          Sample.rate_limited] <= 5)%nat) by (cbn; lia).
  exact (proj1 (price_from_listing Sample.api "AK-47 | Redline (Field-Tested)" 5
                  _ 1 Sample.listing [] Sample.world eq_refl HF Hlen)).
Defined.

Lemma exhausted (self : t) (name : string) (max_retries : nat)
    (fails : list (exchange ListingBody)) (x : exchange ListingBody)
    (rest : list (exchange ListingBody)) (w : World) :
  PriceCache.get (cache self) name w = None ->
  Forall failed fails -> length fails = max_retries -> failed x ->
  exists self' w',
    get_price self name max_retries (fails ++ x :: rest) w =
    (Returned match answer x with
              | Status429 => None
              | _ => Some zero_fallback
              end, self', w', rest)
    /\ cache self' = cache self.
Proof.
  intros Hmiss HF Hlen Hx. unfold get_price. rewrite Hmiss.
  replace (max_retries + 1)%nat with (length fails + 1)%nat by lia.
  destruct (attempts_failed max_retries name fails 0 1 (x :: rest) self w HF)
    as (s1 & w1 & E & C1); [lia|].
  rewrite E, Hlen. cbn [Nat.add seq attempt_loop].
  pose proof (limiter_wait_cache s1 w1) as C2.
  destruct (limiter_wait s1 w1) as [s2 w2]. cbn [fst] in C2.
  unfold failed in Hx.
  destruct (answer x) as [|status| | |]; try discriminate; cbn zeta;
    rewrite ?Nat.ltb_irrefl, ?Nat.eqb_refl, ?andb_false_r.
  - match goal with |- context [limiter_handle_429 s2 ?w] =>
      pose proof (limiter_handle_429_cache s2 w) as Hh;
      destruct (limiter_handle_429 s2 w) as [s3 w3] end.
    cbn [fst] in Hh. eexists _, _. split; [reflexivity | congruence].
  - eexists _, _. split; [reflexivity | congruence].
  - eexists _, _. split; [reflexivity | congruence].
  - eexists _, _. split; [reflexivity | cbn; congruence].
Qed.

(** C1 does not hold when the last attempt is answered with status 429: the
    branch of lines 199-201 goes on to the next iteration, there is none, and
    [get_price] returns [None].  When the last attempt fails in any other way
    the record with price 0.0 and quantity 0 is returned. *)
Theorem budget_exhausted (self : t) (name : string) (max_retries : nat)
    (fails : list (exchange ListingBody)) (x : exchange ListingBody)
    (rest : list (exchange ListingBody)) (w : World) :
  PriceCache.get (cache self) name w = None ->
  Forall failed fails -> length fails = max_retries -> failed x ->
  exists self' w',
    get_price self name max_retries (fails ++ x :: rest) w =
    (Returned match answer x with
              | Status429 => None
              | _ => Some zero_fallback
              end, self', w', rest).
Proof.
  intros Hmiss HF Hlen Hx.
  destruct (exhausted self name max_retries fails x rest w Hmiss HF Hlen Hx)
    as (s & w' & E & _).
  eauto.
Qed.

Lemma budget_exhausted_witness :
  exists self' w',
    get_price Sample.api "AK-47 | Redline (Field-Tested)" 5
      ([Sample.rate_limited; Sample.timed_out; Sample.rate_limited;
        Sample.rate_limited; Sample.rate_limited]
       ++ Sample.rate_limited :: []) Sample.world =
    (Returned None, self', w', []).
Proof.
  assert (HF : Forall failed
                 [Sample.rate_limited (body := ListingBody); Sample.timed_out;
                  Sample.rate_limited; Sample.rate_limited; Sample.rate_limited]).
  { repeat constructor. }
  exact (budget_exhausted Sample.api "AK-47 | Redline (Field-Tested)" 5
           _ Sample.rate_limited [] Sample.world eq_refl HF eq_refl eq_refl).
Defined.





(** *** The log only grows *)










End PriceFacts.

(** * Further properties *)

(** ** More on the limiter *)

Module PacerProps.
Import RateLimiter.

Lemma pow2_le (i j : nat) :
  (i <= j)%nat -> inject_Z (2 ^ Z.of_nat i) <= inject_Z (2 ^ Z.of_nat j).
Proof.
  intros H. rewrite <- Zle_Qle. apply Z.pow_le_mono_r; lia.
Qed.

(** X1.  Once base_delay * 2^k has reached [max_delay] the penalty stays at
    [max_delay] for every later rejection. *)
Theorem penalty_saturates (self : t) (k0 k : nat) :
  0 <= base_delay self ->
  max_delay self <= base_delay self * inject_Z (2 ^ Z.of_nat k0) ->
  (k0 <= k)%nat ->
  penalty self k == max_delay self.
Proof.
  intros Hb Hsat Hk. unfold penalty.
  apply Q.min_r. eapply Qle_trans; [exact Hsat|].
  pose proof (pow2_le k0 k Hk) as Hp.
  pose proof (RateLimiterFacts.pow2_pos k0). nra.
Qed.

Lemma penalty_saturates_witness : penalty default 9 == 60.
Proof.
  apply (penalty_saturates default 6 9).
  - vm_compute. discriminate.
  - vm_compute. discriminate.
  - lia.
Defined.

(** X2.  The time slept in [handle_429] counts as time gone by for the next
    [wait]: when the penalty is at least base_delay * (1 + jitter) the [wait]
    after it does not sleep, and the gap between the two request timestamps
    is the time gone by before the penalty plus the penalty. *)
Theorem penalty_counts_as_pacing (self : t) (w : World) :
  fair w -> 0 <= base_delay self -> 0 <= jitter self ->
  last_request_time self <= clock w ->
  base_delay self * (1 + jitter self) <= next_penalty self ->
  let '(s1, w1) := handle_429 self w in
  let '(s2, w2) := wait s1 w1 in
  log w2 = log w1
  /\ clock w2 = clock w1
  /\ last_request_time s2 - last_request_time self
     == clock w - last_request_time self + next_penalty self.
Proof.
  intros Hf Hb Hj Hlast Hpen.
  destruct (handle_429 self w) as [s1 w1] eqn:E1.
  assert (Hs1 : s1 = set_consecutive_429 (S (consecutive_429 self)) self
                /\ w1 = sleep (next_penalty self) w).
  { unfold handle_429 in E1. injection E1 as <- <-. done. }
  destruct Hs1 as [-> ->].
  rewrite RateLimiterFacts.wait_unfold. cbn zeta.
  set (s1 := set_consecutive_429 _ self).
  set (w1 := sleep _ w).
  assert (Hf1 : fair w1) by exact Hf.
  destruct (RateLimiterFacts.jittered_delay_range s1 w1 Hf1 Hb Hj) as [_ Hhi].
  destruct (Qlt_le_dec _ _) as [Hlt | Hge].
  - exfalso. cbn in Hlt, Hhi. cbn in Hpen.
    change (base_delay s1) with (base_delay self) in *.
    change (jitter s1) with (jitter self) in *. lra.
  - cbn. split_and!; [reflexivity | reflexivity | lra].
Qed.

Lemma penalty_counts_as_pacing_witness :
  let first := wait default Sample.world in
  (* right after a request [wait] sleeps; after the penalty it does not *)
  log (snd (wait (fst first) (snd first))) <> log (snd first)
  /\ (let '(s1, w1) := handle_429 (fst first) (snd first) in
      let '(s2, w2) := wait s1 w1 in
      log w2 = log w1).
Proof.
  intros first. split.
  - intros H. vm_compute in H. discriminate.
  - assert (Hf : fair (snd first)) by (intros n; split; vm_compute; discriminate).
    pose proof (penalty_counts_as_pacing (fst first) (snd first) Hf) as H.
    destruct (handle_429 (fst first) (snd first)) as [s1 w1].
    destruct (wait s1 w1) as [s2 w2].
    apply H; vm_compute; discriminate.
Defined.

Lemma wait_keeps self w :
  let '(s1, w1) := wait self w in
  base_delay s1 = base_delay self /\ jitter s1 = jitter self
  /\ rng w1 = rng w /\ last_request_time s1 = clock w1.
Proof.
  rewrite RateLimiterFacts.wait_unfold. cbn zeta.
  destruct (Qlt_le_dec _ _); cbn; done.
Qed.

(** X3.  Calls of [wait] that follow one another at once are spaced by the
    delays drawn: [n] of them take between n * base_delay * (1 - jitter) and
    n * base_delay * (1 + jitter) seconds. *)
Theorem back_to_back_waits (n : nat) (self : t) (w : World) :
  fair w -> 0 < base_delay self -> 0 <= jitter self -> jitter self < 1 ->
  last_request_time self = clock w ->
  let '(sn, wn) := wait_times n self w in
  last_request_time sn = clock wn
  /\ inject_Z (Z.of_nat n) * (base_delay self * (1 - jitter self))
     <= clock wn - clock w
  /\ clock wn - clock w
     <= inject_Z (Z.of_nat n) * (base_delay self * (1 + jitter self)).
Proof.
  intros Hf Hb Hj Hj1 Hlast.
  assert (Inv : let '(sn, wn) := wait_times n self w in
    (base_delay sn = base_delay self /\ jitter sn = jitter self
     /\ rng wn = rng w)
    /\ last_request_time sn = clock wn
    /\ inject_Z (Z.of_nat n) * (base_delay self * (1 - jitter self))
       <= clock wn - clock w
    /\ clock wn - clock w
       <= inject_Z (Z.of_nat n) * (base_delay self * (1 + jitter self))).
  { induction n as [|n IH].
    - cbn [wait_times]. change (inject_Z (Z.of_nat 0)) with 0.
      split_and!; try done; lra.
    - cbn [wait_times]. destruct (wait_times n self w) as [s1 w1].
      destruct IH as ((Hb1 & Hj1' & Hr1) & Hl1 & Hlo & Hhi).
      pose proof (wait_keeps s1 w1) as Hk.
      assert (Hf1 : fair w1) by (intros k; rewrite Hr1; apply Hf).
      assert (Hb1' : 0 <= base_delay s1) by (rewrite Hb1; lra).
      assert (Hj1'' : 0 <= jitter s1) by (rewrite Hj1'; lra).
      destruct (RateLimiterFacts.jittered_delay_range s1 w1 Hf1 Hb1' Hj1'')
        as [Dlo Dhi].
      rewrite Hb1, Hj1' in Dlo, Dhi.
      revert Hk. rewrite RateLimiterFacts.wait_unfold. cbn zeta.
      rewrite Hl1.
      destruct (Qlt_le_dec _ _) as [Hlt | Hge]; cbn; intros (K1 & K2 & K3 & K4).
      + rewrite Nat2Z.inj_succ. unfold Z.succ. rewrite inject_Z_plus.
        split_and!; try done; try congruence.
        * change (inject_Z 1) with 1. lra.
        * change (inject_Z 1) with 1. lra.
      + exfalso. assert (H0 : 0 < jittered_delay s1 w1) by nra.
        pose proof (Qlt_le_trans _ _ _ H0 Hge) as Hc. lra. }
  destruct (wait_times n self w) as [sn wn]. tauto.
Qed.

Lemma back_to_back_waits_witness :
  let start := wait default Sample.world in
  let '(sn, wn) := wait_times 3 (fst start) (snd start) in
  3 * (1 * (1 - (2 # 10))) <= clock wn - clock (snd start).
Proof.
  intros start.
  assert (Hf : fair (snd start)) by (intros n; split; vm_compute; discriminate).
  pose proof (back_to_back_waits 3 (fst start) (snd start) Hf) as H.
  destruct (wait_times 3 (fst start) (snd start)) as [sn wn].
  destruct H as (_ & Hlo & _); try reflexivity; [vm_compute; discriminate |].
  exact Hlo.
Defined.
End PacerProps.

(** ** More on the cache *)

Module CacheProps.
Import PriceCache.

(** X4.  [set] touches one key only: lookups of the other keys and the time
    to live are as before. *)
Theorem set_other_key (c : t) (k k' : string) (v : PriceRecord.t) (w w' : World) :
  k <> k' ->
  get (fst (set c k v w)) k' w' = get c k' w'
  /\ cache_duration (fst (set c k v w)) = cache_duration c.
Proof.
  intros Hne. split; [|reflexivity].
  unfold get, set. cbn. by rewrite lookup_insert_ne.
Qed.

Lemma set_other_key_witness :
  get (fst (set (init 24 ∅) "AWP | Asiimov" Sample.record Sample.world))
      "AK-47 | Redline" Sample.world = None.
Proof.
  rewrite (proj1 (set_other_key (init 24 ∅) "AWP | Asiimov" "AK-47 | Redline"
                    Sample.record Sample.world Sample.world ltac:(discriminate))).
  reflexivity.
Defined.

(** X5.  The last write wins: two [set] for a key leave the cache that the
    second alone would have left, and the entry lives for [cache_duration] on
    the local wall clock from the second write, whatever the time zone. *)
Theorem set_twice (utc_offset : Q -> Q) (c : t) (k : string)
    (v1 v2 : PriceRecord.t) (w1 w2 w' : World) :
  ~ clock w2 == 0 ->
  representable (local_time utc_offset (clock w2)) = true ->
  let c2 := fst (set (fst (set c k v1 w1)) k v2 w2) in
  c2 = fst (set c k v2 w2)
  /\ (local_time utc_offset (clock w') - local_time utc_offset (clock w2)
        <= cache_duration c ->
      get_at utc_offset c2 k w' = Found (Some v2))
  /\ (cache_duration c
        < local_time utc_offset (clock w') - local_time utc_offset (clock w2) ->
      get_at utc_offset c2 k w' = Found None).
Proof.
  intros Hne Hr c2.
  assert (Hc : c2 = fst (set c k v2 w2)).
  { unfold c2, set. cbn. f_equal. apply insert_insert_eq. }
  assert (Hl : cache c2 !! k = Some (CacheEntry.mk (Some v2) (Some (clock w2))))
    by apply lookup_insert_eq.
  split; [exact Hc|].
  exact (PriceCacheFacts.get_at_stamped utc_offset c2 k v2 (clock w2) w' Hl Hne Hr).
Qed.

Lemma set_twice_witness :
  let c2 := fst (set (fst (set (init 24 ∅) "AWP | Asiimov" Sample.record
                             (set_clock 1711700000 Sample.world)))
                     "AWP | Asiimov" (PriceRecord.mk 11 1)
                     (set_clock 1711800000 Sample.world)) in
  get_at Sample.berlin c2 "AWP | Asiimov"
    (set_clock (1711800000 + 84600) Sample.world) = Found None
  /\ get_at Sample.berlin c2 "AWP | Asiimov"
       (set_clock (1711800000 + 82000) Sample.world)
     = Found (Some (PriceRecord.mk 11 1)).
Proof.
  intros c2.
  assert (Hne : ~ clock (set_clock 1711800000 Sample.world) == 0)
    by (intros H; vm_compute in H; discriminate).
  pose proof (set_twice Sample.berlin (init 24 ∅) "AWP | Asiimov" Sample.record
                (PriceRecord.mk 11 1) (set_clock 1711700000 Sample.world)
                (set_clock 1711800000 Sample.world)) as H.
  split.
  - apply (H (set_clock (1711800000 + 84600) Sample.world) Hne eq_refl).
    reflexivity.
  - apply (H (set_clock (1711800000 + 82000) Sample.world) Hne eq_refl).
    vm_compute. discriminate.
Defined.

(** X6.  An entry without a timestamp, or with the timestamp 0, never
    expires: [get] returns its data whatever the clock says. *)
Theorem no_timestamp_no_expiry (c : t) (k : string) (e : CacheEntry.t) (w : World) :
  cache c !! k = Some e ->
  match CacheEntry.timestamp e with
  | None => True
  | Some ts => ts == 0
  end ->
  get c k w = CacheEntry.data e.
Proof.
  intros He Ht. unfold get. rewrite He.
  destruct (CacheEntry.timestamp e) as [ts|]; [|reflexivity].
  unfold truthy. apply Qeq_bool_iff in Ht. by rewrite Ht.
Qed.

Lemma no_timestamp_no_expiry_witness :
  get (init 24 {[ "AWP | Asiimov"%string := CacheEntry.mk (Some Sample.record) None ]})
      "AWP | Asiimov" Sample.world = Some Sample.record.
Proof.
  apply (no_timestamp_no_expiry _ _ (CacheEntry.mk (Some Sample.record) None)).
  - apply lookup_singleton_eq.
  - exact I.
Defined.


End CacheProps.

(** ** More on get_price *)

Module LookupProps.
Import SteamMarketAPI.

(** What the steps of the client do to the observations. *)

Lemma wait_observed self w :
  let w' := snd (limiter_wait self w) in
  requests (log w') = requests (log w)
  /\ file_writes (log w') = file_writes (log w)
  /\ draws w' = S (draws w).
Proof.
  unfold limiter_wait. rewrite RateLimiterFacts.wait_unfold. cbn zeta.
  destruct (Qlt_le_dec _ _); cbn; unfold requests, file_writes;
    rewrite ?omap_app; cbn; rewrite ?app_nil_r; done.
Qed.

Lemma handle_429_observed self w :
  let w' := snd (limiter_handle_429 self w) in
  requests (log w') = requests (log w)
  /\ file_writes (log w') = file_writes (log w)
  /\ draws w' = draws w.
Proof.
  cbn. unfold requests, file_writes. rewrite !omap_app. cbn.
  rewrite !app_nil_r. done.
Qed.

Lemma perform_observed {body} r (x : exchange body) w :
  let w' := perform r x w in
  requests (log w') = requests (log w) ++ [r]
  /\ file_writes (log w') = file_writes (log w)
  /\ draws w' = draws w.
Proof.
  cbn. unfold requests, file_writes. rewrite !omap_app. cbn.
  rewrite !app_nil_r. done.
Qed.

Lemma sleep_observed d w :
  let w' := sleep d w in
  requests (log w') = requests (log w)
  /\ file_writes (log w') = file_writes (log w)
  /\ draws w' = draws w.
Proof.
  cbn. unfold requests, file_writes. rewrite !omap_app. cbn.
  rewrite !app_nil_r. done.
Qed.

Lemma cache_set_observed name d self w :
  let '(self', w') := cache_set name d self w in
  requests (log w') = requests (log w)
  /\ file_writes (log w') =
     file_writes (log w) ++ [PriceCache.cache (cache self')]
  /\ draws w' = draws w.
Proof.
  cbn. unfold requests, file_writes. rewrite !omap_app. cbn.
  rewrite !app_nil_r. done.
Qed.

Lemma attempt_loop_usage attempts : forall max_retries name net self w,
  let '(out, _, w', net') := attempt_loop attempts max_retries name net self w in
  exists used,
    net = used ++ net'
    /\ (length used <= length attempts)%nat
    /\ requests (log w') =
       requests (log w) ++ repeat (ListingOf name) (length used)
    /\ ((length attempts <= length net)%nat -> out <> Starved)
    /\ (out <> Starved -> draws w' = (draws w + length used)%nat).
Proof.
  induction attempts as [|a attempts IH]; intros max_retries name net self w.
  - cbn. exists []. cbn. rewrite app_nil_r, Nat.add_0_r. split_and!; done.
  - cbn [attempt_loop].
    pose proof (wait_observed self w) as (Rw & _ & Dw).
    destruct (limiter_wait self w) as [s1 w1]. cbn [snd] in Rw, Dw.
    destruct net as [|x net].
    { exists []. cbn. rewrite app_nil_r. split_and!; [done | lia | done | lia | done]. }
    pose proof (perform_observed (ListingOf name) x w1) as (Rp & _ & Dp).
    set (w2 := perform (ListingOf name) x w1) in *. cbn zeta in Rp, Dp.
    assert (Hstop : forall (out : outcome (option PriceRecord.t)) (s : t) w3,
      out <> Starved -> requests (log w3) = requests (log w2) ->
      draws w3 = draws w2 ->
      exists used,
        x :: net = used ++ net
        /\ (length used <= S (length attempts))%nat
        /\ requests (log w3) =
           requests (log w) ++ repeat (ListingOf name) (length used)
        /\ ((S (length attempts) <= length (x :: net))%nat -> out <> Starved)
        /\ (out <> Starved -> draws w3 = (draws w + length used)%nat)).
    { intros out s w3 Ho R3 D3. exists [x]. cbn.
      split_and!; [done | lia | by rewrite R3, Rp, Rw | done | intros _; lia]. }
    assert (Hrec : forall s w3,
      requests (log w3) = requests (log w2) -> draws w3 = draws w2 ->
      let '(out, _, w', net') :=
        attempt_loop attempts max_retries name net s w3 in
      exists used,
        x :: net = used ++ net'
        /\ (length used <= S (length attempts))%nat
        /\ requests (log w') =
           requests (log w) ++ repeat (ListingOf name) (length used)
        /\ ((S (length attempts) <= length (x :: net))%nat -> out <> Starved)
        /\ (out <> Starved -> draws w' = (draws w + length used)%nat)).
    { intros s w3 R3 D3. specialize (IH max_retries name net s w3).
      destruct (attempt_loop attempts max_retries name net s w3)
        as [[[out s4] w4] n4].
      destruct IH as (used & Hnet & Hlen & Hreq & Hst & Hdr).
      exists (x :: used). cbn [length app repeat].
      split_and!; [by rewrite Hnet | lia | | |].
      - rewrite Hreq, R3, Rp, Rw, <- app_assoc. reflexivity.
      - cbn [length]. intros H. apply Hst. lia.
      - intros H. rewrite (Hdr H), D3, Dp, Dw. lia. }
    destruct (answer x) as [|status| | |li]; cbn zeta.
    + pose proof (handle_429_observed s1 w2) as (Rh & _ & Dh).
      destruct (limiter_handle_429 s1 w2) as [s3 w3]. by apply Hrec.
    + destruct (is_429 status && (a <? max_retries)%nat).
      * pose proof (handle_429_observed s1 w2) as (Rh & _ & Dh).
        destruct (limiter_handle_429 s1 w2) as [s3 w3]. by apply Hrec.
      * destruct (a =? max_retries)%nat; [by apply Hstop | by apply Hrec].
    + destruct (a =? max_retries)%nat; [by apply Hstop | by apply Hrec].
    + destruct (a =? max_retries)%nat; [by apply Hstop | by apply Hrec].
    + pose proof (cache_set_observed name (parse_listing li) (limiter_success s1) w2)
        as Hc.
      destruct (cache_set name (parse_listing li) (limiter_success s1) w2)
        as [s3 w3]. destruct Hc as (Rc & _ & Dc). by apply (Hstop _ s3).
Qed.

Lemma get_price_usage (self : t) (name : string) (max_retries : nat)
    (net : list (exchange ListingBody)) (w : World) :
  let '(out, _, w', net') := get_price self name max_retries net w in
  exists used,
    net = used ++ net'
    /\ (length used <= max_retries + 1)%nat
    /\ requests (log w') =
       requests (log w) ++ repeat (ListingOf name) (length used)
    /\ ((max_retries + 1 <= length net)%nat -> out <> Starved)
    /\ (out <> Starved -> draws w' = (draws w + length used)%nat).
Proof.
  unfold get_price. destruct (PriceCache.get (cache self) name w).
  - exists []. cbn. rewrite app_nil_r, Nat.add_0_r. split_and!; try done; lia.
  - pose proof (attempt_loop_usage (seq 0 (max_retries + 1)) max_retries name
                  net self w) as H.
    destruct (attempt_loop _ _ _ _ _ _) as [[[out s1] w1] n1].
    by rewrite length_seq in H.
Qed.

(** X8.  A call of [get_price] uses up at most max_retries + 1 answers of the
    service, sends exactly one request for each of them, all for the item
    asked for, and returns whenever that many answers are there; a call that
    returns has consulted [wait] once before every request. *)
Theorem bounded_attempts (self : t) (name : string) (max_retries : nat)
    (net : list (exchange ListingBody)) (w : World) :
  let '(out, _, w', net') := get_price self name max_retries net w in
  exists used,
    net = used ++ net'
    /\ (length used <= max_retries + 1)%nat
    /\ requests (log w') =
       requests (log w) ++ repeat (ListingOf name) (length used)
    /\ ((max_retries + 1 <= length net)%nat -> out <> Starved)
    /\ (out <> Starved -> draws w' = (draws w + length used)%nat).
Proof. apply get_price_usage. Qed.



Lemma attempt_loop_writes attempts : forall max_retries name net self w,
  let '(_, self', w', _) := attempt_loop attempts max_retries name net self w in
  (cache self' = cache self /\ file_writes (log w') = file_writes (log w))
  \/ file_writes (log w') =
     file_writes (log w) ++ [PriceCache.cache (cache self')].
Proof.
  induction attempts as [|a attempts IH]; intros max_retries name net self w.
  - cbn. by left.
  - cbn [attempt_loop].
    pose proof (wait_observed self w) as (_ & Fw & _).
    pose proof (PriceFacts.limiter_wait_cache self w) as Cw.
    destruct (limiter_wait self w) as [s1 w1]. cbn [fst snd] in Fw, Cw.
    destruct net as [|x net]; [by left|].
    pose proof (perform_observed (ListingOf name) x w1) as (_ & Fp & _).
    set (w2 := perform (ListingOf name) x w1) in *. cbn zeta in Fp.
    assert (Hrec : forall s w3,
      cache s = cache self -> file_writes (log w3) = file_writes (log w2) ->
      let '(_, self', w', _) :=
        attempt_loop attempts max_retries name net s w3 in
      (cache self' = cache self /\ file_writes (log w') = file_writes (log w))
      \/ file_writes (log w') =
         file_writes (log w) ++ [PriceCache.cache (cache self')]).
    { intros s w3 C3 F3. specialize (IH max_retries name net s w3).
      destruct (attempt_loop attempts max_retries name net s w3)
        as [[[out s4] w4] n4].
      destruct IH as [[C F] | F]; [left | right].
      - split; congruence.
      - by rewrite F, F3, Fp, Fw. }
    assert (Hstop : (cache s1 = cache self
                     /\ file_writes (log w2) = file_writes (log w))
                    \/ file_writes (log w2) =
                       file_writes (log w) ++ [PriceCache.cache (cache s1)]).
    { left. split; congruence. }
    destruct (answer x) as [|status| | |li]; cbn zeta.
    + pose proof (handle_429_observed s1 w2) as (_ & Fh & _).
      pose proof (PriceFacts.limiter_handle_429_cache s1 w2) as Ch.
      destruct (limiter_handle_429 s1 w2) as [s3 w3]. cbn [fst snd] in *.
      apply Hrec; congruence.
    + destruct (is_429 status && (a <? max_retries)%nat).
      * pose proof (handle_429_observed s1 w2) as (_ & Fh & _).
        pose proof (PriceFacts.limiter_handle_429_cache s1 w2) as Ch.
        destruct (limiter_handle_429 s1 w2) as [s3 w3]. cbn [fst snd] in *.
        apply Hrec; congruence.
      * destruct (a =? max_retries)%nat; [exact Hstop | by apply Hrec].
    + destruct (a =? max_retries)%nat; [exact Hstop | by apply Hrec].
    + destruct (a =? max_retries)%nat; [exact Hstop | by apply Hrec].
    + pose proof (cache_set_observed name (parse_listing li) (limiter_success s1) w2)
        as Hc.
      destruct (cache_set name (parse_listing li) (limiter_success s1) w2)
        as [s3 w3]. destruct Hc as (_ & Fc & _). right.
      by rewrite Fc, Fp, Fw.
Qed.

(** X9.  A call of [get_price] either leaves the store and the cache file
    alone, or writes the file once, with the store as the call leaves it. *)
Theorem file_follows_store (self : t) (name : string) (max_retries : nat)
    (net : list (exchange ListingBody)) (w : World) :
  let '(_, self', w', _) := get_price self name max_retries net w in
  (cache self' = cache self /\ file_writes (log w') = file_writes (log w))
  \/ file_writes (log w') =
     file_writes (log w) ++ [PriceCache.cache (cache self')].
Proof.
  unfold get_price. destruct (PriceCache.get (cache self) name w).
  - by left.
  - apply attempt_loop_writes.
Qed.

(** X10.  A record obtained from the service is remembered: the call that
    obtains it clears the count of rejections and stores the record stamped
    with the time at which the call ends, so that in any time zone a lookup
    in the cache returns it as long as the local wall clock has moved on by
    no more than the cache duration since. *)
Theorem lookup_is_remembered (self : t) (name : string) (max_retries : nat)
    (fails : list (exchange ListingBody)) (took : Q) (listinginfo : ListingBody)
    (rest : list (exchange ListingBody)) (w : World) :
  PriceCache.get (cache self) name w = None ->
  Forall failed fails ->
  (length fails <= max_retries)%nat ->
  exists self' w',
    get_price self name max_retries
      (fails ++ mkExchange took (Json listinginfo) :: rest) w =
    (Returned (Some (parse_listing listinginfo)), self', w', rest)
    /\ RateLimiter.consecutive_429 (limiter self') = 0%nat
    /\ PriceCache.cache (cache self') !! name =
       Some (CacheEntry.mk (Some (parse_listing listinginfo)) (Some (clock w')))
    /\ forall utc_offset later,
         ~ clock w' == 0 ->
         PriceCache.representable
           (PriceCache.local_time utc_offset (clock w')) = true ->
         PriceCache.local_time utc_offset (clock later)
           - PriceCache.local_time utc_offset (clock w')
           <= PriceCache.cache_duration (cache self) ->
         PriceCache.get_at utc_offset (cache self') name later =
         PriceCache.Found (Some (parse_listing listinginfo)).
Proof.
  intros Hmiss HF Hlen. unfold get_price at 1. rewrite Hmiss.
  replace (max_retries + 1)%nat
    with (length fails + S (max_retries - length fails))%nat by lia.
  destruct (PriceFacts.attempts_failed max_retries name fails 0
              (S (max_retries - length fails))
              (mkExchange took (Json listinginfo) :: rest) self w HF)
    as (s1 & w1 & E & C); [lia|].
  rewrite E. cbn [seq attempt_loop answer].
  pose proof (PriceFacts.limiter_wait_cache s1 w1) as Hc.
  destruct (limiter_wait s1 w1) as [s2 w2]. cbn [fst] in Hc. cbn zeta.
  unfold cache_set, PriceCache.set. cbn [fst snd].
  eexists _, _. split; [reflexivity|]. split; [reflexivity|].
  assert (Hl : forall m : gmap string CacheEntry.t, forall e,
            <[name := e]> m !! name = Some e) by (intros; apply lookup_insert_eq).
  split; [apply Hl|].
  intros utc_offset later Hne Hr Hfresh.
  eapply PriceCacheFacts.get_at_stamped; [apply Hl | exact Hne | exact Hr |].
  cbn. cbn in Hfresh. by rewrite Hc, C.
Qed.

Lemma lookup_is_remembered_witness :
  exists self' w',
    get_price Sample.api "AK-47 | Redline (Field-Tested)" 5
      ([Sample.rate_limited] ++ mkExchange 1 (Json Sample.listing) :: []) Sample.world =
    (Returned (Some (parse_listing Sample.listing)), self', w', [])
    /\ RateLimiter.consecutive_429 (limiter self') = 0%nat
    /\ PriceCache.cache (cache self') !! "AK-47 | Redline (Field-Tested)"%string =
       Some (CacheEntry.mk (Some (parse_listing Sample.listing)) (Some (clock w'))).
Proof.
  assert (HF : Forall failed [Sample.rate_limited (body := ListingBody)]).
  { repeat constructor. }
  assert (Hlen : (length [Sample.rate_limited (body := ListingBody)] <= 5)%nat)
    by (cbn; lia).
  destruct (lookup_is_remembered Sample.api "AK-47 | Redline (Field-Tested)" 5
              _ 1 Sample.listing [] Sample.world eq_refl HF Hlen)
    as (s & w & E & Hz & Hl & _).
  exists s, w. split_and!; [exact E | exact Hz | exact Hl].
Defined.

Lemma all_429_counter attempts : forall max_retries name net self w,
  Forall (fun x => answer x = Status429) net ->
  (length attempts <= length net)%nat ->
  let '(out, self', _, net') := attempt_loop attempts max_retries name net self w in
  out = Returned None
  /\ net' = drop (length attempts) net
  /\ RateLimiter.consecutive_429 (limiter self') =
     (RateLimiter.consecutive_429 (limiter self) + length attempts)%nat
  /\ RateLimiter.base_delay (limiter self') = RateLimiter.base_delay (limiter self)
  /\ RateLimiter.max_delay (limiter self') = RateLimiter.max_delay (limiter self).
Proof.
  induction attempts as [|a attempts IH]; intros max_retries name net self w HF Hlen.
  - cbn. rewrite Nat.add_0_r. done.
  - destruct net as [|x net]; [cbn in Hlen; lia|].
    apply Forall_cons in HF as [Hx HF]. cbn [length] in Hlen.
    cbn [attempt_loop]. unfold limiter_wait.
    rewrite RateLimiterFacts.wait_unfold. cbn zeta. cbn [fst snd].
    rewrite Hx. unfold limiter_handle_429, RateLimiter.handle_429. cbn zeta.
    match goal with |- context [attempt_loop attempts max_retries name net ?s ?w'] =>
      specialize (IH max_retries name net s w' HF ltac:(lia));
      destruct (attempt_loop attempts max_retries name net s w')
        as [[[out s4] w4] n4] end.
    destruct IH as (Ho & Hn & Hc & Hb & Hm). cbn in Hc, Hb, Hm.
    split_and!; [done | done | | done | done].
    rewrite Hc. cbn [length]. lia.
Qed.

(** X11.  Rejections add up over the attempts of a call and stay with the
    limiter afterwards: a call answered with status 429 throughout leaves the
    count higher by max_retries + 1, and the penalty of the next rejection is
    the one of that level. *)
Theorem rejections_escalate (self : t) (name : string) (max_retries : nat)
    (net : list (exchange ListingBody)) (w : World) :
  PriceCache.get (cache self) name w = None ->
  Forall (fun x => answer x = Status429) net ->
  length net = (max_retries + 1)%nat ->
  let '(out, self', _, net') := get_price self name max_retries net w in
  out = Returned None
  /\ net' = []
  /\ RateLimiter.consecutive_429 (limiter self') =
     (RateLimiter.consecutive_429 (limiter self) + (max_retries + 1))%nat
  /\ RateLimiter.next_penalty (limiter self') =
     RateLimiter.penalty (limiter self)
       (RateLimiter.consecutive_429 (limiter self) + (max_retries + 2)).
Proof.
  intros Hmiss HF Hlen. unfold get_price. rewrite Hmiss.
  pose proof (all_429_counter (seq 0 (max_retries + 1)) max_retries name net self w
                HF) as H.
  rewrite length_seq in H. specialize (H ltac:(lia)).
  destruct (attempt_loop _ _ _ _ _ _) as [[[out s1] w1] n1].
  destruct H as (Ho & Hn & Hc & Hb & Hm).
  split_and!; [done | | done |].
  - rewrite Hn, <- Hlen. apply drop_all.
  - unfold RateLimiter.next_penalty, RateLimiter.penalty. rewrite Hc, Hb, Hm.
    do 4 f_equal. lia.
Qed.

Lemma rejections_escalate_witness :
  RateLimiter.consecutive_429
    (limiter (snd (fst (fst (get_price Sample.api "AWP | Asiimov" 1
                               [Sample.rate_limited; Sample.rate_limited]
                               Sample.world))))) = 2%nat.
Proof.
  assert (HF : Forall (fun x : exchange ListingBody => answer x = Status429)
                 [Sample.rate_limited; Sample.rate_limited]).
  { repeat constructor. }
  pose proof (rejections_escalate Sample.api "AWP | Asiimov" 1
                [Sample.rate_limited; Sample.rate_limited] Sample.world
                eq_refl HF eq_refl) as H.
  destruct (get_price _ _ _ _ _) as [[[out s1] w1] n1].
  destruct H as (_ & _ & Hc & _). exact Hc.
Defined.

(** X12.  What a listing lacks: only the first entry of [listinginfo] is
    read; a missing quantity is 0, a missing fee is 0, and a missing price
    gives the price 0.0 while the quantity is kept.  The price is not negative
    when the amounts of the service are not. *)
Theorem listing_defaults (id : string) (info : ListingInfo.t)
    (more : ListingBody) :
  let r := parse_listing ((id, info) :: more) in
  r = parse_listing [(id, info)]
  /\ PriceRecord.quantity r = default 0%Z (ListingInfo.quantity info)
  /\ (ListingInfo.converted_price info = None -> PriceRecord.price r = 0)
  /\ (forall p, ListingInfo.converted_price info = Some p ->
        ListingInfo.converted_fee info = None ->
        PriceRecord.price r == inject_Z p / 100)
  /\ (forall p f, ListingInfo.converted_price info = Some p ->
        ListingInfo.converted_fee info = Some f ->
        (0 <= p + f)%Z -> 0 <= PriceRecord.price r).
Proof.
  cbn. split_and!; try reflexivity.
  - by intros ->.
  - intros p -> ->. cbn. by rewrite Z.add_0_r.
  - intros p f -> -> H. cbn.
    apply Qle_shift_div_l; [reflexivity|]. rewrite Qmult_0_l.
    change 0 with (inject_Z 0). by rewrite <- Zle_Qle.
Qed.
End LookupProps.

(** ** More on fetch_csgo_inventory *)

Module FetchProps.
Import SteamMarketAPI InventoryFacts LookupProps.

Lemma retry_loop_failures_trace fails : forall net rc lv self w,
  Forall failed fails ->
  (rc + length fails < max_retries)%nat ->
  exists self' w',
    retry_loop (fails ++ net) rc lv self w =
    retry_loop net (rc + length fails) lv self' w'
    /\ requests (log w') =
       requests (log w)
       ++ repeat (InventoryPageOf (Locals.start_assetid lv)) (length fails)
    /\ draws w' = draws w.
Proof.
  induction fails as [|x fails IH]; intros net rc lv self w HF Hlen.
  - exists self, w. cbn. by rewrite Nat.add_0_r, app_nil_r.
  - apply Forall_cons in HF as [Hx HF]. cbn [length] in Hlen.
    pose proof (perform_observed (InventoryPageOf (Locals.start_assetid lv)) x w)
      as (Rp & _ & Dp).
    set (w1 := perform _ x w) in *. cbn zeta in Rp, Dp.
    assert (answer x = Status429 \/ answer x <> Status429) as [E|N]
      by (destruct (answer x); auto; right; discriminate).
    + cbn [app]. rewrite (retry_loop_429 _ _ _ _ _ _ E). cbn zeta. fold w1.
      pose proof (handle_429_observed self w1) as (Rh & _ & Dh).
      destruct (limiter_handle_429 self w1) as [s2 w2]. cbn [snd] in Rh, Dh.
      assert (H : (S rc <? max_retries)%nat = true) by (apply Nat.ltb_lt; lia).
      rewrite H.
      destruct (IH net (S rc) lv s2 w2 HF) as (s3 & w3 & E3 & R3 & D3); [lia|].
      exists s3, w3. rewrite E3. split_and!.
      * f_equal. cbn [length]. lia.
      * rewrite R3, Rh, Rp, <- app_assoc. reflexivity.
      * congruence.
    + cbn [app]. rewrite (retry_loop_transient _ _ _ _ _ _ Hx N). cbn zeta. fold w1.
      assert (H : (max_retries <=? S rc)%nat = false) by (apply Nat.leb_gt; lia).
      rewrite H.
      match goal with |- context [sleep ?d w1] =>
        pose proof (sleep_observed d w1) as (Rs & _ & Ds);
        set (w2 := sleep d w1) in * end.
      cbn zeta in Rs, Ds.
      destruct (IH net (S rc) lv (after_failure x self) w2 HF)
        as (s3 & w3 & E3 & R3 & D3); [lia|].
      exists s3, w3. rewrite E3. split_and!.
      * f_equal. cbn [length]. lia.
      * rewrite R3, Rs, Rp, <- app_assoc. reflexivity.
      * congruence.
Qed.

Lemma fetch_one_trace f net lv self w :
  within_budget f ->
  exists self' w',
    retry_loop (exchanges_of f ++ net) 0 lv self w =
    match end_page (bind_data (Some (page f)) lv) with
    | Leave r => (r, self', w', net)
    | Again lv => let '(lv, self, w) := begin_page lv self' w' in
                  retry_loop net 0%nat lv self w
    end
    /\ requests (log w') =
       requests (log w)
       ++ repeat (InventoryPageOf (Locals.start_assetid lv)) (S (length (failures f)))
    /\ draws w' = draws w
    /\ RateLimiter.consecutive_429 (limiter self') = 0%nat.
Proof.
  intros [HF Hlen]. unfold exchanges_of. rewrite <- app_assoc.
  destruct (retry_loop_failures_trace (failures f)
              ([mkExchange (took f) (Json (Some (page f)))] ++ net)
              0 lv self w HF) as (s1 & w1 & E & R & D); [lia|].
  rewrite E. cbn [app].
  rewrite (retry_loop_json _ (Some (page f))) by reflexivity. cbn zeta.
  eexists _, _. split; [reflexivity|].
  split_and!; [| exact D | reflexivity].
  pose proof (perform_observed (InventoryPageOf (Locals.start_assetid lv))
                (mkExchange (took f) (Json (Some (page f)))) w1) as (Rp & _).
  cbn zeta in Rp. rewrite Rp, R, <- app_assoc.
  f_equal. change (S (length (failures f))) with (1 + length (failures f))%nat.
  rewrite Nat.add_comm, repeat_app. reflexivity.
Qed.

Lemma begin_page_trace lv self w :
  let '(lv', self', w') := begin_page lv self w in
  Locals.start_assetid lv' =
    (if cursor_given (Locals.last_assetid lv) then Locals.last_assetid lv
     else Locals.start_assetid lv)
  /\ requests (log w') = requests (log w)
  /\ draws w' = S (draws w)
  /\ RateLimiter.consecutive_429 (limiter self') =
     RateLimiter.consecutive_429 (limiter self).
Proof.
  unfold begin_page.
  pose proof (wait_observed self w) as (R & _ & D).
  assert (C : RateLimiter.consecutive_429 (limiter (fst (limiter_wait self w)))
              = RateLimiter.consecutive_429 (limiter self)).
  { unfold limiter_wait. rewrite RateLimiterFacts.wait_unfold. reflexivity. }
  destruct (limiter_wait self w) as [s1 w1]. cbn [fst snd] in *.
  destruct (cursor_given (Locals.last_assetid lv)); done.
Qed.

(** The pages that announce more, one after the other. *)
Lemma pages_prefix before : forall net lv self w,
  Forall within_budget before ->
  Forall (fun f => announces_more (page f) = true) before ->
  exists lv' self' w',
    retry_loop (flat_map exchanges_of before ++ net) 0 lv self w =
    retry_loop net 0 lv' self' w'
    /\ Locals.all_assets lv' =
       Locals.all_assets lv ++ concat (map Page.assets (map page before))
    /\ Locals.descriptions lv' =
       (if Locals.first lv
        then from_option Page.descriptions (Locals.descriptions lv)
               (head (map page before))
        else Locals.descriptions lv)
    /\ Locals.first lv' = Locals.first lv && bool_decide (before = [])
    /\ Locals.start_assetid lv' = final_cursor (Locals.start_assetid lv) before
    /\ requests (log w') =
       requests (log w) ++ expected_requests (Locals.start_assetid lv) before
    /\ draws w' = (draws w + length before)%nat.
Proof.
  induction before as [|f before IH]; intros net lv self w HB HM.
  - exists lv, self, w. cbn. rewrite !app_nil_r, andb_true_r, Nat.add_0_r.
    split_and!; try done. by destruct (Locals.first lv).
  - apply Forall_cons in HB as [HBf HB]. apply Forall_cons in HM as [HMf HM].
    cbn [flat_map]. rewrite <- app_assoc.
    destruct (fetch_one_trace f (flat_map exchanges_of before ++ net) lv self w HBf)
      as (s1 & w1 & E1 & R1 & D1 & _).
    rewrite E1, (end_page_more _ _ HMf).
    match goal with |- context [begin_page ?l s1 w1] =>
      pose proof (begin_page_locals l s1 w1) as (Ha & Hd & Hf & _);
      pose proof (begin_page_trace l s1 w1) as Ht;
      destruct (begin_page l s1 w1) as [[lv2 s2] w2] end.
    cbn [fst Locals.all_assets Locals.descriptions Locals.first
         Locals.last_assetid Locals.start_assetid] in Ha, Hd, Hf, Ht.
    destruct Ht as (Hs & R2 & D2 & _).
    assert (Hcur : cursor_given (Page.last_assetid (page f)) = true).
    { unfold announces_more in HMf. by apply andb_prop in HMf as [_ ?]. }
    rewrite Hcur in Hs.
    destruct (IH net lv2 s2 w2 HB HM) as (lv3 & s3 & w3 & E3 & A3 & Ds3 & F3 & S3 & R3 & D3).
    exists lv3, s3, w3. split; [exact E3|].
    rewrite A3, Ds3, F3, S3, R3, D3, Ha, Hd, Hf, Hs, R2, R1, D2, D1.
    cbn [map concat head from_option expected_requests final_cursor length].
    split_and!.
    + by rewrite <- app_assoc.
    + reflexivity.
    + rewrite andb_false_r. reflexivity.
    + reflexivity.
    + by rewrite <- app_assoc.
    + lia.
Qed.

Lemma fetch_prefix self w before net :
  Forall within_budget before ->
  Forall (fun f => announces_more (page f) = true) before ->
  exists lv' self' w',
    fetch_csgo_inventory self (flat_map exchanges_of before ++ net) w =
    retry_loop net 0 lv' self' w'
    /\ collected lv' =
       {| Inventory.assets := concat (map Page.assets (map page before));
          Inventory.descriptions :=
            from_option Page.descriptions [] (head (map page before)) |}
    /\ Locals.first lv' = bool_decide (before = [])
    /\ Locals.start_assetid lv' = final_cursor None before
    /\ requests (log w') =
       requests (log w) ++ expected_requests None before
    /\ draws w' = (draws w + S (length before))%nat.
Proof.
  intros HB HM. unfold fetch_csgo_inventory.
  pose proof (begin_page_locals initial_locals self w) as (Ha & Hd & Hf & _).
  pose proof (begin_page_trace initial_locals self w) as Ht.
  destruct (begin_page initial_locals self w) as [[lv1 s1] w1].
  cbn [fst] in Ha, Hd, Hf. cbn in Ht. destruct Ht as (Hs & R1 & D1 & _).
  destruct (pages_prefix before net lv1 s1 w1 HB HM)
    as (lv2 & s2 & w2 & E & A & Ds & F & S2 & R2 & D2).
  exists lv2, s2, w2. rewrite E.
  split_and!; [done | | by rewrite F, Hf | by rewrite S2, Hs
               | by rewrite R2, R1, Hs | rewrite D2, D1; lia].
  unfold collected. rewrite A, Ds, Ha, Hd, Hf. reflexivity.
Qed.





Lemma expected_requests_app before : forall cursor last,
  expected_requests cursor (before ++ [last]) =
  expected_requests cursor before
  ++ repeat (InventoryPageOf (final_cursor cursor before))
       (S (length (failures last))).
Proof.
  induction before as [|f before IH]; intros cursor last.
  - cbn. by rewrite app_nil_r.
  - cbn [app expected_requests final_cursor]. by rewrite IH, <- app_assoc.
Qed.

Lemma pagination_trace self w before last rest :
  Forall within_budget (before ++ [last]) ->
  Forall (fun f => announces_more (page f) = true) before ->
  announces_more (page last) = false ->
  exists out self' w',
    fetch_csgo_inventory self (flat_map exchanges_of (before ++ [last]) ++ rest) w =
    (out, self', w', rest)
    /\ requests (log w') =
       requests (log w) ++ expected_requests None (before ++ [last])
    /\ draws w' = (draws w + length (before ++ [last]))%nat
    /\ RateLimiter.consecutive_429 (limiter self') = 0%nat.
Proof.
  intros HB HM HL. apply Forall_app in HB as [HB HBl].
  apply Forall_cons in HBl as [HBl _].
  rewrite flat_map_app. cbn [flat_map]. rewrite app_nil_r, <- app_assoc.
  destruct (fetch_prefix self w before (exchanges_of last ++ rest) HB HM)
    as (lv & s1 & w1 & E & _ & _ & S1 & R1 & D1).
  destruct (fetch_one_trace last rest lv s1 w1 HBl) as (s2 & w2 & E2 & R2 & D2 & C2).
  rewrite E, E2, (end_page_last _ _ HL).
  eexists _, s2, w2. split; [reflexivity|].
  rewrite R2, R1, S1, D2, D1, expected_requests_app, length_app, <- app_assoc.
  cbn [length]. split_and!; [done | lia | done].
Qed.

(** X15.  Every attempt for a page is sent with the cursor that the page
    before it has left, the first page without one. *)
Theorem requests_follow_cursors (self : t) (w : World)
    (before : list fetched_page) (last : fetched_page)
    (rest : list (exchange InventoryBody)) :
  Forall within_budget (before ++ [last]) ->
  Forall (fun f => announces_more (page f) = true) before ->
  announces_more (page last) = false ->
  let '(_, _, w', _) :=
    fetch_csgo_inventory self (flat_map exchanges_of (before ++ [last]) ++ rest) w in
  requests (log w') =
  requests (log w) ++ expected_requests None (before ++ [last]).
Proof.
  intros HB HM HL.
  destruct (pagination_trace self w before last rest HB HM HL)
    as (out & s & w' & E & R & _).
  by rewrite E.
Qed.

(** X16.  The pacer is consulted once for every page and not for the retries
    of a page, and after a retrieval that has run through, the count of
    rejections is zero. *)
Theorem one_wait_per_page (self : t) (w : World)
    (before : list fetched_page) (last : fetched_page)
    (rest : list (exchange InventoryBody)) :
  Forall within_budget (before ++ [last]) ->
  Forall (fun f => announces_more (page f) = true) before ->
  announces_more (page last) = false ->
  let '(_, self', w', _) :=
    fetch_csgo_inventory self (flat_map exchanges_of (before ++ [last]) ++ rest) w in
  draws w' = (draws w + length (before ++ [last]))%nat
  /\ RateLimiter.consecutive_429 (limiter self') = 0%nat.
Proof.
  intros HB HM HL.
  destruct (pagination_trace self w before last rest HB HM HL)
    as (out & s & w' & E & _ & D & C).
  by rewrite E.
Qed.

Lemma requests_follow_cursors_witness :
  requests (log (snd (fst (fetch_csgo_inventory Sample.api
     (flat_map exchanges_of
        ([mkFetched [Sample.rate_limited] 1 Sample.page1]
         ++ [mkFetched [] 1 Sample.page2]) ++ []) Sample.world)))) =
  [InventoryPageOf None; InventoryPageOf None; InventoryPageOf (Some "1001"%string)].
Proof.
  pose proof (requests_follow_cursors Sample.api Sample.world
                [mkFetched [Sample.rate_limited] 1 Sample.page1]
                (mkFetched [] 1 Sample.page2) []) as H.
  destruct (fetch_csgo_inventory _ _ _) as [[[out s] w'] n].
  apply H.
  - repeat constructor; unfold max_retries; cbn; lia.
  - repeat constructor.
  - reflexivity.
Defined.

Lemma one_wait_per_page_witness :
  draws (snd (fst (fetch_csgo_inventory Sample.api
     (flat_map exchanges_of
        ([mkFetched [Sample.rate_limited] 1 Sample.page1]
         ++ [mkFetched [] 1 Sample.page2]) ++ []) Sample.world))) = 2%nat.
Proof.
  pose proof (one_wait_per_page Sample.api Sample.world
                [mkFetched [Sample.rate_limited] 1 Sample.page1]
                (mkFetched [] 1 Sample.page2) []) as H.
  destruct (fetch_csgo_inventory _ _ _) as [[[out s] w'] n].
  apply H.
  - repeat constructor; unfold max_retries; cbn; lia.
  - repeat constructor.
  - reflexivity.
Defined.

Lemma end_page_not_starved lv : end_page lv <> Leave Starved.
Proof.
  unfold end_page. destruct (Locals.data lv) as [[p|]|]; try discriminate.
  destruct (negb _ || negb _); [discriminate|].
  destruct (Page.more_items p =? 1)%Z; discriminate.
Qed.

Lemma begin_page_frame lv self w :
  let '(_, self', w') := begin_page lv self w in
  cache self' = cache self
  /\ file_writes (log w') = file_writes (log w)
  /\ requests (log w') = requests (log w).
Proof.
  unfold begin_page.
  pose proof (wait_observed self w) as (R & F & _).
  pose proof (PriceFacts.limiter_wait_cache self w) as C.
  by destruct (limiter_wait self w) as [s1 w1].
Qed.

Lemma retry_loop_frame net : forall rc lv self w,
  let '(out, self', w', net') := retry_loop net rc lv self w in
  cache self' = cache self
  /\ file_writes (log w') = file_writes (log w)
  /\ (exists used,
        net = used ++ net'
        /\ length (requests (log w')) =
           (length (requests (log w)) + length used)%nat)
  /\ (out = Starved -> net' = []).
Proof.
  induction net as [|x net IH]; intros rc lv self w.
  - cbn. split_and!; try done. exists []. cbn. by rewrite Nat.add_0_r.
  - cbn [retry_loop].
    pose proof (perform_observed (InventoryPageOf (Locals.start_assetid lv)) x w)
      as (Rp & Fp & _).
    set (w1 := perform _ x w) in *. cbn zeta in Rp, Fp.
    (* whatever goes on from the tail of the script *)
    assert (Hrec : forall rc' lv' s w2,
      cache s = cache self -> file_writes (log w2) = file_writes (log w1) ->
      requests (log w2) = requests (log w1) ->
      let '(out, self', w', net') := retry_loop net rc' lv' s w2 in
      cache self' = cache self
      /\ file_writes (log w') = file_writes (log w)
      /\ (exists used,
            x :: net = used ++ net'
            /\ length (requests (log w')) =
               (length (requests (log w)) + length used)%nat)
      /\ (out = Starved -> net' = [])).
    { intros rc' lv' s w2 C2 F2 R2. specialize (IH rc' lv' s w2).
      destruct (retry_loop net rc' lv' s w2) as [[[out s3] w3] n3].
      destruct IH as (C & F & (used & Hn & Hl) & Hs).
      split_and!; [congruence | congruence | | done].
      exists (x :: used). split; [by rewrite Hn|].
      rewrite Hl, R2, Rp, length_app. cbn. lia. }
    assert (Hstop : forall (out : outcome Inventory.t) s w2,
      out <> Starved ->
      cache s = cache self -> file_writes (log w2) = file_writes (log w1) ->
      requests (log w2) = requests (log w1) ->
      cache s = cache self
      /\ file_writes (log w2) = file_writes (log w)
      /\ (exists used,
            x :: net = used ++ net
            /\ length (requests (log w2)) =
               (length (requests (log w)) + length used)%nat)
      /\ (out = Starved -> net = [])).
    { intros out s w2 Ho C2 F2 R2. split_and!; [done | congruence | | done].
      exists [x]. split; [done|]. rewrite R2, Rp, length_app. cbn. lia. }
    assert (Hleave : forall lv' s w2,
      cache s = cache self -> file_writes (log w2) = file_writes (log w1) ->
      requests (log w2) = requests (log w1) ->
      let '(out, self', w', net') :=
        match end_page lv' with
        | Leave r => (r, s, w2, net)
        | Again lv'' =>
            let '(lv3, s3, w3) := begin_page lv'' s w2 in
            retry_loop net 0 lv3 s3 w3
        end in
      cache self' = cache self
      /\ file_writes (log w') = file_writes (log w)
      /\ (exists used,
            x :: net = used ++ net'
            /\ length (requests (log w')) =
               (length (requests (log w)) + length used)%nat)
      /\ (out = Starved -> net' = [])).
    { intros lv' s w2 C2 F2 R2.
      pose proof (end_page_not_starved lv') as Hns.
      destruct (end_page lv') as [r | lv''].
      - apply Hstop; try done. congruence.
      - pose proof (begin_page_frame lv'' s w2) as Hb.
        destruct (begin_page lv'' s w2) as [[lv3 s3] w3].
        destruct Hb as (Cb & Fb & Rb). apply Hrec; congruence. }
    destruct (answer x) as [|status| | |d]; cbn zeta.
    + pose proof (handle_429_observed self w1) as (Rh & Fh & _).
      pose proof (PriceFacts.limiter_handle_429_cache self w1) as Ch.
      destruct (limiter_handle_429 self w1) as [s2 w2]. cbn [fst snd] in *.
      destruct (S rc <? max_retries)%nat; [by apply Hrec | by apply Hleave].
    + destruct (max_retries <=? S rc)%nat; [by apply Hstop|].
      destruct (S rc <? max_retries)%nat.
      * apply Hrec; try done; apply sleep_observed.
      * apply Hleave; try done; apply sleep_observed.
    + destruct (max_retries <=? S rc)%nat; [by apply Hstop|].
      destruct (S rc <? max_retries)%nat.
      * apply Hrec; try done; apply sleep_observed.
      * apply Hleave; try done; apply sleep_observed.
    + destruct (max_retries <=? S rc)%nat; [by apply Hstop|].
      destruct (S rc <? max_retries)%nat.
      * apply Hrec; try done; apply sleep_observed.
      * apply Hleave; try done; apply sleep_observed.
    + by apply Hleave.
Qed.

Lemma fetch_observed (self : t) (net : list (exchange InventoryBody)) (w : World) :
  let '(out, self', w', net') := fetch_csgo_inventory self net w in
  cache self' = cache self
  /\ file_writes (log w') = file_writes (log w)
  /\ (exists used,
        net = used ++ net'
        /\ length (requests (log w')) =
           (length (requests (log w)) + length used)%nat)
  /\ (out = Starved -> net' = []).
Proof.
  unfold fetch_csgo_inventory.
  pose proof (begin_page_frame initial_locals self w) as Hb.
  destruct (begin_page initial_locals self w) as [[lv1 s1] w1].
  destruct Hb as (Cb & Fb & Rb).
  pose proof (retry_loop_frame net 0 lv1 s1 w1) as H.
  destruct (retry_loop net 0 lv1 s1 w1) as [[[out s2] w2] n2].
  destruct H as (C & F & (used & Hn & Hl) & Hs).
  split_and!; [congruence | congruence | | done].
  exists used. split; [done | congruence].
Qed.

(** X17.  Whatever the service answers, the retrieval of the inventory leaves
    the price cache and its file alone and sends one request for every answer
    it uses; it ends without a result only when the answers run out. *)
Theorem fetch_frame (self : t) (net : list (exchange InventoryBody)) (w : World) :
  let '(out, self', w', net') := fetch_csgo_inventory self net w in
  cache self' = cache self
  /\ file_writes (log w') = file_writes (log w)
  /\ (exists used,
        net = used ++ net'
        /\ length (requests (log w')) =
           (length (requests (log w)) + length used)%nat)
  /\ (out = Starved -> net' = []).
Proof. apply fetch_observed. Qed.
End FetchProps.

(** ** main *)

Module MainProps.
Import Main.

Lemma desc_map_snoc descriptions d :
  desc_map (descriptions ++ [d]) =
  <[description_key d := d]> (desc_map descriptions).
Proof. unfold desc_map. by rewrite foldl_app. Qed.

Lemma desc_map_last descriptions : forall k,
  desc_map descriptions !! k = last_with_key k descriptions.
Proof.
  unfold last_with_key.
  induction descriptions as [|d l IH] using rev_ind; intros k.
  - unfold desc_map. cbn. apply lookup_empty.
  - rewrite desc_map_snoc, filter_app, filter_cons, filter_nil.
    destruct (decide (description_key d = k)) as [E|N].
    + rewrite E, lookup_insert_eq, last_snoc. reflexivity.
    + rewrite lookup_insert_ne by done. rewrite app_nil_r. apply IH.
Qed.

(** X18.  The items that are priced are the assets, one after the other and
    each as often as it occurs, for which a description with the same class
    and instance exists, each under the name of the last such description;
    an asset without one is left out. *)
Theorem items_join (assets : list Asset.t) (descriptions : list Description.t) :
  items assets (desc_map descriptions) =
  omap (fun asset =>
          (fun d => (Description.market_hash_name d, d))
            <$> last_with_key (asset_key asset) descriptions) assets.
Proof.
  unfold items. induction assets as [|asset assets IH]; [reflexivity|].
  cbn [omap list_omap]. rewrite IH, desc_map_last.
  by destruct (last_with_key (asset_key asset) descriptions).
Qed.

Lemma price_all_tally items : forall api net w acc,
  let '(out, _, _, _) := price_all items api net w acc in
  forall t, out = Returned t ->
  exists new,
    printed t = printed acc ++ new
    /\ total t == total acc + sum_prices new
    /\ Forall (fun row => 0 < snd row) new
    /\ map fst new `sublist_of` map fst items.
Proof.
  induction items as [|[name desc] items IH]; intros api net w acc.
  - cbn. intros t [= <-]. exists []. cbn. rewrite app_nil_r.
    split_and!; [done | unfold sum_prices; cbn [foldr]; lra | done | done].
  - cbn [price_all].
    destruct (SteamMarketAPI.get_price api name 5 net w) as [[[out api1] w1] net1].
    destruct out as [price_info | e |]; [|discriminate | discriminate].
    destruct (Qlt_le_dec 0 (price_of price_info)) as [Hpos|_].
    + specialize (IH api1 net1 w1
                    {| printed := printed acc ++ [(name, price_of price_info)];
                       total := total acc + price_of price_info |}).
      destruct (price_all items api1 net1 w1 _) as [[[out2 api2] w2] net2].
      intros t Ht. destruct (IH t Ht) as (new & Hp & Htot & Hall & Hsub).
      cbn in Hp, Htot.
      exists ((name, price_of price_info) :: new). split_and!.
      * by rewrite Hp, <- app_assoc.
      * rewrite Htot. unfold sum_prices. cbn [foldr snd]. lra.
      * by constructor.
      * cbn. by constructor.
    + specialize (IH api1 net1 w1 acc).
      destruct (price_all items api1 net1 w1 acc) as [[[out2 api2] w2] net2].
      intros t Ht. destruct (IH t Ht) as (new & Hp & Htot & Hall & Hsub).
      exists new. split_and!; try done. cbn. by constructor.
Qed.

(** X19.  The total is the sum of the prices of the rows, every row has a
    price above zero, and the rows come in the order of the items. *)
Theorem tally_adds_up (items : list (string * Description.t))
    (api : SteamMarketAPI.t) (net : list (exchange ListingBody)) (w : World) :
  let '(out, _, _, _) :=
    price_all items api net w {| printed := []; total := 0 |} in
  forall t, out = Returned t ->
  total t == sum_prices (printed t)
  /\ Forall (fun row => 0 < snd row) (printed t)
  /\ map fst (printed t) `sublist_of` map fst items.
Proof.
  pose proof (price_all_tally items api net w {| printed := []; total := 0 |}) as H.
  destruct (price_all items api net w _) as [[[out api1] w1] net1].
  intros t Ht. destruct (H t Ht) as (new & Hp & Htot & Hall & Hsub).
  cbn in Hp, Htot. rewrite Hp. split_and!; [|done|done]. rewrite Htot. lra.
Qed.




(** X21.  When the last retry of the first page goes to a 429, [main] ends
    with the [UnboundLocalError] of [fetch_csgo_inventory]: no price is asked
    for. *)
Theorem main_crashes (loaded : gmap string CacheEntry.t)
    (fails : list (exchange InventoryBody)) (x : exchange InventoryBody)
    (rest : list (exchange InventoryBody))
    (listing_net : list (exchange ListingBody)) (w : World) :
  Forall failed fails -> length fails = 4%nat -> answer x = Status429 ->
  exists api' w',
    main loaded (fails ++ x :: rest) listing_net w =
    (Raised UnboundLocalError, api', w', rest, listing_net).
Proof.
  intros HF Hlen Hx. unfold main, SteamMarketAPI.fetch_csgo_inventory.
  pose proof (InventoryFacts.begin_page_locals SteamMarketAPI.initial_locals
                (SteamMarketAPI.init STEAM_ID 24 loaded) w) as (_ & _ & _ & Hd).
  destruct (SteamMarketAPI.begin_page _ _ _) as [[lv1 s1] w1]. cbn [fst] in Hd.
  destruct (InventoryFacts.retry_loop_exhausted_by_429 fails x rest lv1 s1 w1
              HF Hlen Hx) as (s2 & w2 & E).
  rewrite E. unfold SteamMarketAPI.end_page. rewrite Hd. cbn. eauto.
Qed.

(** X22.  When [main] reports that there are no items, no price has been
    asked for, the cache file has not been written and the cache is the one
    loaded at the start. *)
Theorem nothing_priced_without_items (loaded : gmap string CacheEntry.t)
    (inventory_net : list (exchange InventoryBody))
    (listing_net : list (exchange ListingBody)) (w : World) :
  let '(out, api', w', _, listing') := main loaded inventory_net listing_net w in
  out = Returned NoItems ->
  listing' = listing_net
  /\ file_writes (log w') = file_writes (log w)
  /\ SteamMarketAPI.cache api' = PriceCache.init 24 loaded.
Proof.
  unfold main.
  pose proof (FetchProps.fetch_observed (SteamMarketAPI.init STEAM_ID 24 loaded)
                inventory_net w) as Hf.
  destruct (SteamMarketAPI.fetch_csgo_inventory _ _ _) as [[[out api1] w1] n1].
  destruct Hf as (C & F & _).
  destruct out as [inventory | e |]; [|discriminate|discriminate].
  destruct (Inventory.assets inventory) as [|a assets]; [done|].
  destruct (price_all _ _ _ _ _) as [[[out2 api2] w2] l2].
  destruct out2; discriminate.
Qed.

Lemma tally_adds_up_witness :
  match fst (fst (fst (price_all
          [("AK-47 | Redline (Field-Tested)"%string, Sample.description1)]
          Sample.api [mkExchange 1 (Json Sample.listing)] Sample.world
          {| printed := []; total := 0 |}))) with
  | Returned t => total t == sum_prices (printed t)
  | _ => False
  end.
Proof.
  pose proof (tally_adds_up
                [("AK-47 | Redline (Field-Tested)"%string, Sample.description1)]
                Sample.api [mkExchange 1 (Json Sample.listing)] Sample.world) as H.
  destruct (price_all _ _ _ _ _) as [[[out api1] w1] n1] eqn:E.
  apply (f_equal (fun r => fst (fst (fst r)))) in E. cbn [fst] in *.
  destruct out as [t| |]; [exact (proj1 (H t eq_refl)) | |];
    vm_compute in E; discriminate.
Defined.


Lemma main_crashes_witness :
  exists api' w',
    main ∅ ([Sample.rate_limited; Sample.rate_limited; Sample.rate_limited;
             Sample.rate_limited] ++ Sample.rate_limited :: [])
      [mkExchange 1 (Json Sample.listing)] Sample.world =
    (Raised UnboundLocalError, api', w', [], [mkExchange 1 (Json Sample.listing)]).
Proof.
  apply (main_crashes ∅ [Sample.rate_limited; Sample.rate_limited;
                         Sample.rate_limited; Sample.rate_limited]
           Sample.rate_limited []).
  - repeat constructor.
  - reflexivity.
  - reflexivity.
Defined.

Lemma nothing_priced_without_items_witness :
  snd (main ∅ [mkExchange 1 (Json None)] [mkExchange 1 (Json Sample.listing)]
         Sample.world) = [mkExchange 1 (Json Sample.listing)].
Proof.
  pose proof (nothing_priced_without_items ∅ [mkExchange 1 (Json None)]
                [mkExchange 1 (Json Sample.listing)] Sample.world) as H.
  destruct (main _ _ _ _) as [[[[out api1] w1] n1] l1] eqn:E.
  assert (Ho : out = Returned NoItems).
  { apply (f_equal (fun r => fst (fst (fst (fst r))))) in E. cbn in E.
    rewrite <- E. reflexivity. }
  exact (proj1 (H Ho)).
Defined.
End MainProps.
